(** * fast_grow_server: the result-ingestion pipeline of [FastGrowWrapper]

    A shallow embedding of [fast_grow/tool_wrappers/fast_grow_wrapper.py] and
    of the [grow] task of [fast_grow/tasks.py], with the properties of the
    ingestion pipeline stated and proved over it.

    Python text is modelled as a list of characters.  The model covers ASCII
    text: characters above 127 are carried along unchanged, they are neither
    whitespace for [strip] nor letters for [upper]. *)

From Stdlib Require Import Ascii String ZArith Lia.
From stdpp Require Import gmap strings list.

Local Open Scope Z_scope.
Local Open Scope nat_scope.

#[local] Set Warnings "-clear-no-such-hyp".

Abbreviation str := (list ascii).
Coercion list_ascii_of_string : string >-> list.

(** ** Python string primitives *)

Module Py.

Definition nl : ascii := "010"%char.

(** [str.isspace] on one ASCII character: tab, line feed, vertical tab, form
    feed, carriage return, the four separators 0x1c-0x1f, and space. *)
Definition is_space (c : ascii) : bool :=
  match c with
  | "009" | "010" | "011" | "012" | "013"
  | "028" | "029" | "030" | "031" | " " => true
  | _ => false
  end%char.

Fixpoint lstrip (s : str) : str :=
  match s with
  | [] => []
  | c :: s' => if is_space c then lstrip s' else s
  end.

Definition rstrip (s : str) : str := reverse (lstrip (reverse s)).

(** [s.strip()] *)
Definition strip (s : str) : str := rstrip (lstrip s).

(** [s.startswith(p)], returning what follows the prefix. *)
Fixpoint after_prefix (p s : str) : option str :=
  match p, s with
  | [], _ => Some s
  | _ :: _, [] => None
  | a :: p', b :: s' => if decide (a = b) then after_prefix p' s' else None
  end.

(** The leftmost occurrence of [sep] in [s]: what is before it and what is
    after it ([s.partition(sep)] without the middle component), or [None]
    when [sep] does not occur. *)
Fixpoint cut (sep s : str) : option (str * str) :=
  match after_prefix sep s with
  | Some rest => Some ([], rest)
  | None =>
      match s with
      | [] => None
      | c :: s' =>
          match cut sep s' with
          | Some (b, a) => Some (c :: b, a)
          | None => None
          end
      end
  end.

(** [s.split(sep)] for a non-empty [sep] (every call site passes a literal):
    cut at the leftmost occurrence and go on with the rest.  Every cut
    consumes at least one character, so [length s] rounds are enough. *)
Fixpoint split_fuel (n : nat) (sep s : str) : list str :=
  match n with
  | 0 => [s]
  | S n' =>
      match cut sep s with
      | None => [s]
      | Some (b, a) => b :: split_fuel n' sep a
      end
  end.

Definition split (sep s : str) : list str := split_fuel (length s) sep s.

(** [sep.join(l)] *)
Fixpoint join (sep : str) (l : list str) : str :=
  match l with
  | [] => []
  | [x] => x
  | x :: l' => x ++ sep ++ join sep l'
  end.

(** [s.replace(old, new)] for a non-empty [old]: the leftmost
    non-overlapping occurrences are replaced. *)
Fixpoint replace_fuel (n : nat) (old new s : str) : str :=
  match n with
  | 0 => s
  | S n' =>
      match cut old s with
      | None => s
      | Some (b, a) => b ++ new ++ replace_fuel n' old new a
      end
  end.

Definition replace (old new s : str) : str := replace_fuel (length s) old new s.

Definition upper_char (c : ascii) : ascii :=
  let n := N_of_ascii c in
  if ((97 <=? n) && (n <=? 122))%N then ascii_of_N (n - 32) else c.

(** [s.upper()] *)
Definition upper (s : str) : str := upper_char <$> s.

(** [sub in s] *)
Fixpoint contains (sub s : str) : bool :=
  match after_prefix sub s with
  | Some _ => true
  | None => match s with [] => false | _ :: s' => contains sub s' end
  end.

End Py.

(** ** [float(s)]

    The literals Python's [float] accepts, after it strips whitespace: an
    optional sign, then [inf], [infinity] or [nan] in any case, or a decimal
    number with an optional exponent; underscores may separate digits.  The
    value is kept as the exact decimal the literal denotes (its rounding to
    binary64 is not modelled). *)

Inductive pyfloat :=
| FNan
| FInf (neg : bool)
| FDec (neg : bool) (digits : N) (exp10 : Z).

Module Float.

Definition digit (c : ascii) : option N :=
  let n := N_of_ascii c in
  if ((48 <=? n) && (n <=? 57))%N then Some (n - 48)%N else None.

(** [(["_"] digit)*]: the digits read and what is left. *)
Fixpoint digits_tail (s : str) : list N * str :=
  match s with
  | [] => ([], [])
  | c :: s' =>
      match digit c with
      | Some d => let '(ds, r) := digits_tail s' in (d :: ds, r)
      | None =>
          if decide (c = "_"%char) then
            match s' with
            | c' :: s'' =>
                match digit c' with
                | Some d => let '(ds, r) := digits_tail s'' in (d :: ds, r)
                | None => ([], s)
                end
            | [] => ([], s)
            end
          else ([], s)
      end
  end.

(** [digit (["_"] digit)*], possibly absent. *)
Definition digitpart (s : str) : list N * str :=
  match s with
  | c :: s' =>
      match digit c with
      | Some d => let '(ds, r) := digits_tail s' in (d :: ds, r)
      | None => ([], s)
      end
  | [] => ([], s)
  end.

Definition sign (s : str) : bool * str :=
  match s with
  | "-"%char :: s' => (true, s')
  | "+"%char :: s' => (false, s')
  | _ => (false, s)
  end.

Definition number (ds : list N) : N := foldl (λ acc d, 10 * acc + d)%N 0%N ds.

(** [[("e" | "E") [sign] digitpart]] followed by the end of the text. *)
Definition exponent (s : str) : option Z :=
  match s with
  | [] => Some 0%Z
  | c :: s' =>
      if decide (c = "e"%char ∨ c = "E"%char) then
        let '(neg, s1) := sign s' in
        match digitpart s1 with
        | ((_ :: _) as ds, []) =>
            Some (if neg then - Z.of_N (number ds) else Z.of_N (number ds))%Z
        | _ => None
        end
      else None
  end.

Definition decimal (neg : bool) (s : str) : option pyfloat :=
  let '(ip, r1) := digitpart s in
  let '(fp, r2) :=
    match r1 with
    | "."%char :: r => digitpart r
    | _ => ([], r1)
    end in
  match ip ++ fp with
  | [] => None
  | ds =>
      match exponent r2 with
      | Some e => Some (FDec neg (number ds) (e - Z.of_nat (length fp)))
      | None => None
      end
  end.

Definition parse (s : str) : option pyfloat :=
  let '(neg, s1) := sign (Py.strip s) in
  let u := Py.upper s1 in
  if decide (u = "INF" ∨ u = "INFINITY") then Some (FInf neg)
  else if decide (u = "NAN") then Some FNan
  else decimal neg s1.

End Float.

(** ** Data model *)

(** A value a property can take: the text itself, or what the caster made of it. *)
Inductive pyval :=
| PyStr (s : str)
| PyFloat (f : pyfloat).

Global Instance pyfloat_eq_dec : EqDecision pyfloat.
Proof. solve_decision. Defined.
Global Instance pyval_eq_dec : EqDecision pyval.
Proof. solve_decision. Defined.

(** Modelled from the spec: the [Status] enumeration of [fast_grow.models],
    whose module is not among the embedded sources; the tasks only ever write
    [SUCCESS] and [FAILURE]. *)
Inductive Status := PENDING | RUNNING | SUCCESS | FAILURE.

Global Instance Status_eq_dec : EqDecision Status.
Proof. solve_decision. Defined.

(** The fields of the models the wrapper reads. *)
Record Complex := { complex_name : str }.

Record Ensemble := { complex_set : list Complex }.

Record Growing := {
  growing_id : Z;
  ensemble : Ensemble;
  fragment_set_name : str;
  search_points : option str
}.

(** A row of the [Hit] table, as [add_hits] builds it. *)
Record Hit := {
  hit_growing : Z;
  hit_name : str;
  hit_score : option pyval;
  hit_file_string : str;
  hit_file_type : str;
  hit_ensemble_scores : gmap str (option pyval)
}.

Abbreviation path := string.

Inductive exn :=
| ValueError (text : str)
| IndexError
| DatabaseError (rejected : Hit)
| CalledProcessError (returncode : Z) (cmd : list str) (output stderr : option str).

Inductive result (A : Type) :=
| Ok (a : A)
| Raise (e : exn).
Arguments Ok {A} a.
Arguments Raise {A} e.

Definition is_ok {A} (r : result A) : bool :=
  match r with Ok _ => true | Raise _ => false end.

Global Instance result_ret : MRet result := @Ok.
Global Instance result_bind : MBind result := λ A B f r,
  match r with Ok a => f a | Raise e => Raise e end.

(** [float] as a caster. *)
Definition float (s : str) : result pyval :=
  match Float.parse s with
  | Some f => Ok (PyFloat f)
  | None => Raise (ValueError s)
  end.

(** ** Record parsing ([FastGrowWrapper], the pure part) *)

Definition delimiter : str := "$$$$" ++ [Py.nl].
Definition marker : str := "> <".
Definition key_end : str := ">" ++ [Py.nl].

(** [mol_string.split('\n')[0].strip()] *)
Definition get_mol_string_name (mol_string : str) : str :=
  match Py.split [Py.nl] mol_string with
  | first :: _ => Py.strip first
  | [] => []
  end.

(** [[e.strip() for e in element.replace('$$$$', '').split('>\n')]] *)
Definition property_pair (element : str) : list str :=
  Py.strip <$> Py.split key_end (Py.replace "$$$$" [] element).

(** The loop of [get_mol_string_prop] over the elements of
    [mol_string.split('> <')]; indexing past the end of [property_pair] is an
    [IndexError]. *)
Fixpoint prop_scan (prop : str) (cast_to : option (str → result pyval))
    (elements : list str) : result (option pyval) :=
  match elements with
  | [] => Ok None
  | element :: rest =>
      match property_pair element with
      | [] => Raise IndexError
      | key :: values =>
          if decide (key ≠ prop) then prop_scan prop cast_to rest
          else
            match values with
            | [] => Raise IndexError
            | value :: _ =>
                match cast_to with
                | Some cast => v ← cast value; Ok (Some v)
                | None => Ok (Some (PyStr value))
                end
            end
      end
  end.

Definition get_mol_string_prop (prop mol_string : str)
    (cast_to : option (str → result pyval)) : result (option pyval) :=
  prop_scan prop cast_to (Py.split marker mol_string).

(** [[m + '$$$$\n' for m in data.split('$$$$\n') if m.strip()]] *)
Definition mol_strings (data : str) : list str :=
  (λ m, m ++ delimiter) <$> filter (λ m, Py.strip m ≠ []) (Py.split delimiter data).

(** The loop over [growing.ensemble.complex_set.all()]. *)
Fixpoint ensemble_loop (mol_string : str) (cs : list Complex)
    (ensemble_scores : gmap str (option pyval)) : result (gmap str (option pyval)) :=
  match cs with
  | [] => Ok ensemble_scores
  | cmplx :: cs' =>
      v ← get_mol_string_prop (Py.upper (complex_name cmplx)) mol_string (Some float);
      ensemble_loop mol_string cs' (<[complex_name cmplx := v]> ensemble_scores)
  end.

(** The body of the loop of [add_hits] up to the construction of the [Hit]. *)
Definition make_hit (growing : Growing) (mol_string : str) : result Hit :=
  let hit_name := take 254 (get_mol_string_name mol_string) in
  hit_score ← get_mol_string_prop "Score" mol_string (Some float);
  ensemble_scores ←
    (if decide (1 < length (complex_set (ensemble growing)))
     then ensemble_loop mol_string (complex_set (ensemble growing)) ∅
     else Ok ∅);
  Ok {| hit_growing := growing_id growing;
        hit_name := hit_name;
        hit_score := hit_score;
        hit_file_string := mol_string;
        hit_file_type := "sdf";
        hit_ensemble_scores := ensemble_scores |}.

(** ** The world outside the pipeline

    Everything the wrapper observes but does not decide: what each scan of the
    results directory finds, how long the external process runs and how it
    ends, the settings and temporary names, and which rows the store accepts
    ([fast_grow.models] and the settings modules are not embedded). *)
Record World := {
  (** [listing k]: the files matching [*.sdf] the [k]-th call of
      [process_hits] enumerates, each with the text [read()] returns for it *)
  listing : nat → list (path * str);
  (** the number of [process.poll()] calls that answer [None] *)
  polls_alive : nat;
  returncode : Z;
  (** whether [hit.save()] succeeds *)
  db_accepts : Hit → bool;
  FAST_GROW : str;
  CHUNK_SIZE : str;
  db_user : str;
  db_port : str;
  db_host : str;
  core_file_name : str;
  directory : str;
  ensemble_dir_name : str;
  search_points_file_name : str
}.

(** [process.communicate()] once the process has ended: [Popen(args)] was
    given no pipes, so nothing is captured and both streams are [None]. *)
Definition communicate : option str * option str := (None, None).

(** What the pipeline does that can be observed from outside, in order. *)
Inductive event :=
| EvPopen (args : list str)
| EvGlob (files : list path)
| EvAddHits (hit_file : path)
| EvSleep
| EvPoll (answer : option Z)
| EvReturncode (rc : Z)
| EvSaveStatus (s : Status).

Global Instance event_eq_dec : EqDecision event.
Proof. solve_decision. Defined.

(** The mutable state: the [seen] set that [grow] shares with every call of
    [process_hits], the rows of the [Hit] table, the status column of the
    growing, and the events so far. *)
Record state := {
  seen_files : gset path;
  db : list Hit;
  status : Status;
  trace : list event
}.

(** Stateful code that may raise: the state survives an exception. *)
Definition M (A : Type) : Type := state → result A * state.

Definition ret {A} (a : A) : M A := λ st, (Ok a, st).
Definition bind {A B} (m : M A) (k : A → M B) : M B := λ st,
  match m st with
  | (Ok a, st') => k a st'
  | (Raise e, st') => (Raise e, st')
  end.
Definition raise {A} (e : exn) : M A := λ st, (Raise e, st).
Definition lift {A} (r : result A) : M A := λ st, (r, st).

Notation "'do' x <- m ; k" := (bind m (λ x, k))
  (at level 10, x name, m at level 100, k at level 200).
Notation "m ;; k" := (bind m (λ _, k))
  (at level 100, k at level 200, right associativity).

Definition log (e : event) : M unit := λ st,
  (Ok (), {| seen_files := seen_files st; db := db st; status := status st;
             trace := trace st ++ [e] |}).

Definition seen_add (f : path) : M unit := λ st,
  (Ok (), {| seen_files := {[f]} ∪ seen_files st; db := db st; status := status st;
             trace := trace st |}).

Definition seen_reset : M unit := λ st,
  (Ok (), {| seen_files := ∅; db := db st; status := status st; trace := trace st |}).

Definition is_seen (f : path) : M bool := λ st, (Ok (bool_decide (f ∈ seen_files st)), st).

Definition set_db (rows : list Hit) (st : state) : state :=
  {| seen_files := seen_files st; db := rows; status := status st; trace := trace st |}.

(** [growing.status = s; growing.save()] *)
Definition save_status (s : Status) : M unit := λ st,
  (Ok (), {| seen_files := seen_files st; db := db st; status := s;
             trace := trace st ++ [EvSaveStatus s] |}).

(** [with transaction.atomic(): body]: when the body raises, the rows written
    inside the block are rolled back and the exception goes on. *)
Definition atomic {A} (body : M A) : M A := λ st,
  match body st with
  | (Ok a, st') => (Ok a, st')
  | (Raise e, st') => (Raise e, set_db (db st) st')
  end.

Section Pipeline.

Context (w : World).

(** [hit.save()] *)
Definition save (hit : Hit) : M unit := λ st,
  if db_accepts w hit then (Ok (), set_db (db st ++ [hit]) st)
  else (Raise (DatabaseError hit), st).

(** The loop of [add_hits] over the records of one file. *)
Fixpoint save_hits (growing : Growing) (mols : list str) : M unit :=
  match mols with
  | [] => ret ()
  | mol_string :: rest =>
      do hit <- lift (make_hit growing mol_string);
      save hit;;
      save_hits growing rest
  end.

(** [add_hits(growing, hits_path)] from the text [hits_file.read()]
    returned on: [data] is that text.  A file that cannot be opened, read
    or decoded makes the source raise before this point; the listing of the
    world gives every file a text, so those errors are outside the model. *)
Definition add_hits (growing : Growing) (hits_path : path) (data : str) : M unit :=
  log (EvAddHits hits_path);;
  save_hits growing (mol_strings data).

(** The loop of [process_hits] over the files the scan found. *)
Fixpoint hit_files (growing : Growing) (files : list (path * str)) : M unit :=
  match files with
  | [] => ret ()
  | (hit_file, data) :: rest =>
      do old <- is_seen hit_file;
      if old then hit_files growing rest
      else
        add_hits growing hit_file data;;
        seen_add hit_file;;
        hit_files growing rest
  end.

(** [process_hits(growing, directory_path, seen_files)] on what the scan of
    the directory finds. *)
Definition process_hits (growing : Growing) (found : list (path * str)) : M unit :=
  atomic (log (EvGlob found.*1);; hit_files growing found).

Definition grow_args (growing : Growing) : list str :=
  [FAST_GROW w;
   ("--ligand" : str); core_file_name w;
   ("--results" : str); directory w ++ "/hits.sdf";
   ("--database" : str); fragment_set_name growing;
   ("--chunksize" : str); CHUNK_SIZE w;
   ("--writemode" : str); ("1" : str);
   ("--databasetype" : str); ("0" : str);
   ("--username" : str); db_user w;
   ("--port" : str); db_port w;
   ("--host" : str); db_host w]
  ++ [("--ensemble" : str); ensemble_dir_name w]
  ++ match search_points growing with
     | Some (_ :: _) => [("--interactions" : str); search_points_file_name w]
     | _ => []
     end.

(** The [while True] loop of [grow]: [alive] polls still answer [None];
    [k] counts the scans made so far. *)
Fixpoint poll_loop (growing : Growing) (alive k : nat) : M unit :=
  process_hits growing (listing w k);;
  log EvSleep;;
  match alive with
  | 0 => log (EvPoll (Some (returncode w)))
  | S alive' => log (EvPoll None);; poll_loop growing alive' (S k)
  end.

(** [FastGrowWrapper.grow(growing)] from [subprocess.Popen] on. *)
Definition grow (growing : Growing) : M unit :=
  let args := grow_args growing in
  log (EvPopen args);;
  seen_reset;;
  poll_loop growing (polls_alive w) 0;;
  process_hits growing (listing w (S (polls_alive w)));;
  log (EvReturncode (returncode w));;
  if decide (returncode w > 0)%Z then
    let '(stdout, stderr) := communicate in
    raise (CalledProcessError (returncode w) args stdout stderr)
  else ret ().

(** The [grow] task of [tasks.py], once the growing is fetched. *)
Definition grow_task (growing : Growing) : M unit := λ st,
  match grow growing st with
  | (Ok _, st') => save_status SUCCESS st'
  | (Raise error, st') =>
      match save_status FAILURE st' with
      | (_, st'') => (Raise error, st'')
      end
  end.

End Pipeline.

(** ** Vocabulary of the statements

    The notions the properties are stated with, defined on their own rather
    than through the code they describe. *)

(** Nothing but whitespace. *)
Definition blank (s : str) : Prop := Forall (λ c, Py.is_space c = true) s.

(** The characters before the first line feed. *)
Fixpoint first_line (s : str) : str :=
  match s with
  | [] => []
  | c :: s' => if decide (c = Py.nl) then [] else c :: first_line s'
  end.

Global Instance blank_dec s : Decision (blank s).
Proof. unfold blank. apply _. Defined.

(** The keys of a record as the extractor reads them.  The [> <] markers cut
    the record into pieces, and the text before the first marker - the name
    line and the molecule block - is a piece like the others.  The key of a
    piece is its text before the piece's first [>] at the end of a line (the
    whole piece when there is none), with every [$$$$] deleted and the
    whitespace around it stripped.  So a record whose header is the word
    [Score] alone has the key [Score], with or without a block of that name. *)
Definition record_keys (record : str) : list str :=
  omap (λ element, head (property_pair element)) (Py.split marker record).

(** The value of a property as the words "the text between the key's marker
    line and the next [> <] marker (or the end of the record), with all
    [$$$$] removed and surrounding whitespace stripped" describe it. *)
Definition text_after_marker_line (prop record : str) : option str :=
  match Py.cut (marker ++ prop ++ key_end) record with
  | None => None
  | Some (_, after) =>
      let block := match Py.cut marker after with
                   | Some (b, _) => b
                   | None => after
                   end in
      Some (Py.strip (Py.replace "$$$$" [] block))
  end.

Definition empty_line : string := EmptyString.

(** A text given by its lines, each one closed by a line feed. *)
Definition text (lines : list string) : str :=
  concat ((λ l : string, (l : str) ++ [Py.nl]) <$> lines).

(** The rows the records of one file give, or the first error met. *)
Fixpoint file_hits (w : World) (growing : Growing) (mols : list str) : result (list Hit) :=
  match mols with
  | [] => Ok []
  | mol_string :: rest =>
      hit ← make_hit growing mol_string;
      if db_accepts w hit then hits ← file_hits w growing rest; Ok (hit :: hits)
      else Raise (DatabaseError hit)
  end.

(** The files of a scan that are new: not seen before, and each taken once. *)
Fixpoint fresh (seen : gset path) (found : list (path * str)) : list (path * str) :=
  match found with
  | [] => []
  | (f, data) :: rest =>
      if decide (f ∈ seen) then fresh seen rest
      else (f, data) :: fresh ({[f]} ∪ seen) rest
  end.

(** The rows of several files, one batch after the other, or the first error. *)
Fixpoint batches (w : World) (growing : Growing) (files : list (path * str)) :
    result (list Hit) :=
  match files with
  | [] => Ok []
  | (_, data) :: rest =>
      hits ← file_hits w growing (mol_strings data);
      more ← batches w growing rest;
      Ok (hits ++ more)
  end.

(** The files for which [add_hits] was called, in order. *)
Definition ingested (tr : list event) : list path :=
  omap (λ e, match e with EvAddHits f => Some f | _ => None end) tr.

(** The scans of a trace. *)
Definition scans (tr : list event) : list (list path) :=
  omap (λ e, match e with EvGlob files => Some files | _ => None end) tr.

(** Events of the polling phase: scanning, ingesting, sleeping, and polls
    that find the process still running. *)
Definition polling (e : event) : Prop :=
  match e with
  | EvGlob _ | EvAddHits _ | EvSleep | EvPoll None => True
  | _ => False
  end.

(** What all the scans of a run find, from the first poll cycle to the drain. *)
Definition all_found (w : World) : list (path * str) :=
  concat (listing w <$> seq 0 (polls_alive w + 2)).

(** What the scans before the [k]-th find, the scans counted from 0. *)
Definition found_before (w : World) (k : nat) : list (path * str) :=
  concat (listing w <$> seq 0 k).

(** A stretch of a run: [tr] is what it adds to the trace.  It leaves the
    status alone, ingests only files that were not seen, each at most once,
    only adds to the seen set, marks seen only what it ingested (and all of
    it when it ends well), and keeps the rows that were committed. *)
Definition extends (st st' : state) (tr : list event) (ok : bool) : Prop :=
  status st' = status st
  ∧ trace st' = trace st ++ tr
  ∧ NoDup (ingested tr)
  ∧ (∀ f, f ∈ ingested tr → f ∉ seen_files st)
  ∧ seen_files st ⊆ seen_files st'
  ∧ seen_files st' ⊆ seen_files st ∪ list_to_set (ingested tr)
  ∧ (ok = true → seen_files st' = seen_files st ∪ list_to_set (ingested tr))
  ∧ db st `prefix_of` db st'.

(** ** Sample data *)

Definition sample_world (found : nat → list (path * str)) (alive : nat) (rc : Z) : World :=
  {| listing := found; polls_alive := alive; returncode := rc;
     db_accepts := λ _, true;
     FAST_GROW := "bin/fast_grow"; CHUNK_SIZE := "100";
     db_user := "fast_grow"; db_port := "5432"; db_host := "localhost";
     core_file_name := "/tmp/core.sdf"; directory := "/tmp/hits";
     ensemble_dir_name := "/tmp/ensemble";
     search_points_file_name := "/tmp/search_points.json" |}.

Definition sample_growing (members : list string) : Growing :=
  {| growing_id := 1;
     ensemble := {| complex_set := (λ n : string, {| complex_name := n |}) <$> members |};
     fragment_set_name := "fragments";
     search_points := None |}.

Definition pending : state :=
  {| seen_files := ∅; db := []; status := PENDING; trace := [] |}.

Definition hit_a : str := text ["HIT_A"; "> <Score>"; "12.5"; empty_line; "$$$$"].
Definition hit_b : str := text ["HIT_B"; "> <Score>"; "8.1"; empty_line; "$$$$"].
Definition hit_bad : str := text ["HIT_X"; "> <Score>"; "n/a"; empty_line; "$$$$"].

(** ** The claims that the code does not meet, as they are worded *)

(** "Persistence is atomic per result file ... hits from previously
    fully-processed files remain persisted": whenever a call of
    [process_hits] has ingested a file and marked it seen, the rows of that
    file are in the table afterwards. *)
Definition atomic_per_file : Prop :=
  ∀ w growing found st f data hits,
    (f, data) ∈ found → f ∉ seen_files st →
    f ∈ seen_files (process_hits w growing found st).2 →
    file_hits w growing (mol_strings data) = Ok hits →
    ∀ hit, hit ∈ hits → hit ∈ db (process_hits w growing found st).2.


(** "the job status is set to RUNNING before the polling loop begins": the
    trace of a run writes [RUNNING] before its first scan. *)
Definition running_before_polling (tr : list event) : Prop :=
  ∃ before after, tr = before ++ EvSaveStatus RUNNING :: after ∧ scans before = [].


(** "a record whose first line exceeds 254 characters persists exactly the
    first 254 characters". *)
Definition first_254_of_first_line : Prop :=
  ∀ growing record hit,
    make_hit growing record = Ok hit →
    254 < length (first_line record) →
    hit_name hit = take 254 (first_line record).

(** "the value returned is the text between the key's marker line and the
    next [> <] marker (or the end of the record), with all [$$$$] removed and
    surrounding whitespace stripped". *)
Definition value_is_text_after_marker_line : Prop :=
  ∀ prop record value,
    get_mol_string_prop prop record None = Ok (Some (PyStr value)) →
    text_after_marker_line prop record = Some value.

(** A name line of 255 characters, 253 of them trailing blanks. *)
Definition padded_record : str :=
  ("AB" : str) ++ replicate 253 " "%char ++ [Py.nl]
  ++ text ["> <Score>"; "1.5"; empty_line; "$$$$"].

(** A value that runs over two lines, the first ending in [>]. *)
Definition two_line_value : str := text ["HIT"; "> <K>"; "a>"; "b"; empty_line; "$$$$"].



(** A record whose name line is the word [Score] and that has no [Score]
    block. *)
Definition header_is_key : str := text ["Score"; "> <Other>"; "1"; empty_line; "$$$$"].

(** A record whose header ends its first line in [>], so that the header
    reads as a block of the key [M1]. *)
Definition header_as_block : str :=
  text ["M1>"; "7"; "> <Score>"; "3"; empty_line; "> <M2>"; "2.5"; empty_line; "$$$$"].

(** A value with the record delimiter's dollars inside. *)
Definition dollars_in_value : str := text ["HIT"; "> <K>"; "a$$$$b"; empty_line; "$$$$"].

Definition hit_c : str := text ["HIT_C"; "> <Score>"; "5.0"; empty_line; "$$$$"].

(** [batch1.sdf] is there while the process runs, [batch2.sdf] appears as it
    exits: the only poll finds the process ended, and the drain finds both. *)
Definition two_batches (rc : Z) : World :=
  sample_world
    (λ k, match k with
          | 0 => [("batch1.sdf"%string, hit_a ++ hit_b)]
          | _ => [("batch1.sdf"%string, hit_a ++ hit_b); ("batch2.sdf"%string, hit_c)]
          end)
    0 rc.

(** ** Plain records

    A record as the growing binary writes it: a header (the name line and the
    molecule block), then one block per property, then the delimiter.  Its
    header, keys and values are plain: they hold neither [>] nor [$]. *)

Definition plain (s : str) : Prop := Forall (λ c, c ≠ ">"%char ∧ c ≠ "$"%char) s.

(** What stands between two markers for a property: the key, the [>] that
    ends its line, the value, and a blank line. *)
Definition block_body (kv : str * str) : str :=
  kv.1 ++ key_end ++ kv.2 ++ [Py.nl; Py.nl].

Definition render_record (header : str) (props : list (str * str)) : str :=
  header ++ concat ((λ kv, marker ++ block_body kv) <$> props) ++ delimiter.

(** The stripped value of the first property whose stripped key is [prop]. *)
Fixpoint first_value (prop : str) (props : list (str * str)) : option str :=
  match props with
  | [] => None
  | (k, v) :: rest =>
      if decide (Py.strip k = prop) then Some (Py.strip v) else first_value prop rest
  end.

(** ** The clipper ([clipper_wrapper.py] and the [clip_ligand] task) *)

(** [os.path.join(a, *parts)] on POSIX paths. *)
Fixpoint path_join (a : str) (parts : list str) : str :=
  match parts with
  | [] => a
  | b :: rest =>
      match b with
      | "/"%char :: _ => path_join b rest
      | _ =>
          match last a with
          | None | Some "/"%char => path_join (a ++ b) rest
          | Some _ => path_join (a ++ "/" ++ b) rest
          end
      end
  end.

(** The columns of a [Core] row the clipper reads and writes; [fast_grow.models]
    is not among the embedded sources, so the anchor and linker positions are
    taken as the texts [str(core.anchor)] and [str(core.linker)]. *)
Record Core := {
  ligand_file_type : str;
  anchor_text : str;
  linker_text : str;
  core_file_string : option str;
  core_file_type : option str;
  core_status : Status
}.

(** What the clipper run looks like from the wrapper. *)
Record ClipWorld := {
  BASE_DIR : str;
  ligand_file_name : str;
  clipped_file_name : str;
  clipper_returncode : Z;
  (** what [temp_file.read()] returns after the run *)
  clipped_text : str
}.

(** [subprocess.check_call(args)]: any exit code other than zero raises. *)
Definition check_call (rc : Z) (args : list str) : result () :=
  if decide (rc = 0%Z) then Ok () else Raise (CalledProcessError rc args None None).

Definition clip_args (cw : ClipWorld) (core : Core) : list str :=
  [path_join (BASE_DIR cw) [("bin" : str); ("clipper" : str)];
   ("--ligand" : str); ligand_file_name cw;
   ("--clipped" : str); clipped_file_name cw;
   ("--anchorposition" : str); anchor_text core;
   ("--linkposition" : str); linker_text core].

(** [ClipperWrapper.clip(core)]: the core as the call leaves it. *)
Definition clip (cw : ClipWorld) (core : Core) : result Core :=
  _ ← check_call (clipper_returncode cw) (clip_args cw core);
  Ok {| ligand_file_type := ligand_file_type core;
        anchor_text := anchor_text core;
        linker_text := linker_text core;
        core_file_string := Some (clipped_text cw);
        core_file_type := Some (ligand_file_type core);
        core_status := core_status core |}.

Definition set_core_status (s : Status) (core : Core) : Core :=
  {| ligand_file_type := ligand_file_type core;
     anchor_text := anchor_text core;
     linker_text := linker_text core;
     core_file_string := core_file_string core;
     core_file_type := core_file_type core;
     core_status := s |}.

(** The [clip_ligand] task, once the core is fetched: what it raises and the
    row it saves. *)
Definition clip_ligand (cw : ClipWorld) (core : Core) : result () * Core :=
  match clip cw core with
  | Ok core' => (Ok (), set_core_status SUCCESS core')
  | Raise error => (Raise error, set_core_status FAILURE core)
  end.

(** The texts between the markers of a plain record: the header, then the
    bodies of the blocks, the last of them followed by the delimiter. *)
Fixpoint record_elements (e : str) (props : list (str * str)) : list str :=
  match props with
  | [] => [e ++ delimiter]
  | kv :: rest => e :: record_elements (block_body kv) rest
  end.

(** A text after which a marker is found where it stands, and in which,
    followed by the delimiter alone, none is found. *)
Definition marker_safe (e : str) : Prop :=
  (∀ y, Py.cut marker (e ++ marker ++ y) = Some (e, y))
  ∧ Py.cut marker (e ++ delimiter) = None.

(** [batch1.sdf] is there from the start; after one poll cycle [bad.sdf]
    appears, whose score is no number. *)
Definition bad_batch (rc : Z) : World :=
  sample_world
    (λ k, match k with
          | 0 => [("batch1.sdf"%string, hit_a)]
          | _ => [("batch1.sdf"%string, hit_a); ("bad.sdf"%string, hit_bad)]
          end)
    1 rc.

(** The state after a scan has ingested [batch1.sdf]. *)
Definition after_first_scan : state :=
  {| seen_files := {["batch1.sdf"%string]}; db := []; status := PENDING;
     trace := [EvGlob ["batch1.sdf"%string]; EvAddHits "batch1.sdf"%string] |}.

(** The row of [hit_a] for the sample growing: what the first scan of
    [bad_batch] stores. *)
Definition first_scan_rows : list Hit :=
  [{| hit_growing := 1;
      hit_name := "HIT_A";
      hit_score := Some (PyFloat (FDec false 125 (-1)));
      hit_file_string := hit_a;
      hit_file_type := "sdf";
      hit_ensemble_scores := ∅ |}].

(** * Facts about the string primitives *)

Section StringFacts.

Implicit Types (s p sep b a : str) (c : ascii).

Lemma after_prefix_Some p s r : Py.after_prefix p s = Some r ↔ s = p ++ r.
Proof.
  revert s; induction p as [|x p IH]; intros [|y s]; simpl.
  - split; congruence.
  - split; congruence.
  - split; [discriminate | intros [=]].
  - destruct (decide (x = y)) as [->|Hne].
    + rewrite IH. split; [intros ->; reflexivity | intros [=]; assumption].
    + split; [discriminate | intros [=]; congruence].
Qed.

Lemma after_prefix_app p r : Py.after_prefix p (p ++ r) = Some r.
Proof. apply after_prefix_Some. reflexivity. Qed.

Lemma after_prefix_None_app p s t :
  length p ≤ length s → Py.after_prefix p s = None → Py.after_prefix p (s ++ t) = None.
Proof.
  revert s; induction p as [|x p IH]; intros [|y s]; simpl; try congruence; try lia.
  intros Hlen. destruct (decide (x = y)); [|reflexivity].
  apply IH. lia.
Qed.

(** A cut splits the text around an occurrence of the separator. *)
Lemma cut_Some sep s b a : Py.cut sep s = Some (b, a) → s = b ++ sep ++ a.
Proof.
  revert b; induction s as [|c s IH]; intros b; simpl.
  - destruct (Py.after_prefix sep []) eqn:E; [|discriminate].
    intros [= <- <-]. apply after_prefix_Some in E. exact E.
  - destruct (Py.after_prefix sep (c :: s)) eqn:E.
    + intros [= <- <-]. apply after_prefix_Some in E. exact E.
    + destruct (Py.cut sep s) as [[b' a']|] eqn:E'; [|discriminate].
      intros [= <- <-]. simpl. f_equal. apply IH. reflexivity.
Qed.

Lemma cut_length sep s b a :
  Py.cut sep s = Some (b, a) → length s = length b + length sep + length a.
Proof. intros ->%cut_Some. rewrite !length_app. lia. Qed.

(** The occurrence a cut finds is the leftmost one: the part before it,
    followed by all but the last character of the separator, holds none. *)
Lemma cut_None_contains sep s : Py.cut sep s = None ↔ Py.contains sep s = false.
Proof.
  induction s as [|c s IH]; simpl.
  - destruct (Py.after_prefix sep []); split; congruence.
  - destruct (Py.after_prefix sep (c :: s)); [split; congruence|].
    rewrite <- IH. destruct (Py.cut sep s) as [[??]|]; split; congruence.
Qed.

Lemma contains_unfold sub s :
  Py.contains sub s =
  match Py.after_prefix sub s with
  | Some _ => true
  | None => match s with [] => false | _ :: s' => Py.contains sub s' end
  end.
Proof. destruct s; reflexivity. Qed.

Lemma cut_unfold sep s :
  Py.cut sep s =
  match Py.after_prefix sep s with
  | Some rest => Some ([], rest)
  | None =>
      match s with
      | [] => None
      | c :: s' => match Py.cut sep s' with Some (b, a) => Some (c :: b, a) | None => None end
      end
  end.
Proof. destruct s; reflexivity. Qed.

Lemma contains_true sub s : Py.contains sub s = true ↔ ∃ l r, s = l ++ sub ++ r.
Proof.
  split.
  - induction s as [|c s IH]; rewrite contains_unfold.
    + destruct (Py.after_prefix sub []) eqn:E; [|discriminate].
      intros _. apply after_prefix_Some in E. exists [], l. exact E.
    + destruct (Py.after_prefix sub (c :: s)) eqn:E.
      * intros _. apply after_prefix_Some in E. exists [], l. exact E.
      * intros (l & r & ->)%IH. exists (c :: l), r. reflexivity.
  - intros (l & r & ->). induction l as [|c l IH].
    + rewrite contains_unfold. simpl. rewrite after_prefix_app. reflexivity.
    + rewrite contains_unfold.
      destruct (Py.after_prefix sub ((c :: l) ++ sub ++ r)); [reflexivity | exact IH].
Qed.

Lemma contains_false_mono sub s l r :
  Py.contains sub (l ++ s ++ r) = false → Py.contains sub s = false.
Proof.
  intros H. destruct (Py.contains sub s) eqn:E; [|reflexivity].
  apply contains_true in E as (l' & r' & ->).
  rewrite <- H. symmetry. apply contains_true.
  exists (l ++ l'), (r' ++ r). rewrite <- !app_assoc. reflexivity.
Qed.

(** What a cut leaves before the separator holds no separator. *)
Lemma cut_before_free sep s b a :
  sep ≠ [] → Py.cut sep s = Some (b, a) → Py.contains sep b = false.
Proof.
  intros Hsep. revert b; induction s as [|x s IH]; intros b; rewrite cut_unfold.
  - destruct (Py.after_prefix sep []) eqn:E; [|discriminate].
    apply after_prefix_Some in E. destruct sep; [congruence | discriminate].
  - destruct (Py.after_prefix sep (x :: s)) eqn:E.
    + intros [= <- <-]. destruct sep; [congruence | reflexivity].
    + destruct (Py.cut sep s) as [[b' a']|] eqn:E'; [|discriminate].
      intros [= <- <-]. rewrite contains_unfold.
      destruct (Py.after_prefix sep (x :: b')) eqn:E2.
      * apply after_prefix_Some in E2. apply cut_Some in E'. subst s.
        rewrite app_comm_cons, E2, <- app_assoc, after_prefix_app in E. discriminate.
      * apply IH. reflexivity.
Qed.

(** ** [split] and [join] *)

Lemma split_fuel_enough sep s n :
  sep ≠ [] → length s ≤ n → Py.split_fuel n sep s = Py.split sep s.
Proof.
  intros Hsep. unfold Py.split.
  remember (length s) as m eqn:Hm. revert s n Hm.
  induction m as [m IH] using lt_wf_ind. intros s n -> Hn.
  destruct n as [|n].
  - assert (length s = 0) as Hz by lia. rewrite Hz. reflexivity.
  - destruct (length s) as [|k] eqn:Hk.
    + apply length_zero_iff_nil in Hk as ->. cbn [Py.split_fuel].
      rewrite cut_unfold.
      destruct (Py.after_prefix sep []) eqn:E; [|reflexivity].
      apply after_prefix_Some in E. destruct sep; [congruence | discriminate].
    + cbn [Py.split_fuel]. destruct (Py.cut sep s) as [[b a]|] eqn:E; [|reflexivity].
      pose proof (cut_length _ _ _ _ E) as Hl.
      assert (0 < length sep) by (destruct sep; [congruence | simpl; lia]).
      f_equal. rewrite (IH (length a)) by lia.
      symmetry. apply (IH (length a)); lia.
Qed.

Lemma split_unfold sep s :
  sep ≠ [] →
  Py.split sep s =
  match Py.cut sep s with
  | None => [s]
  | Some (b, a) => b :: Py.split sep a
  end.
Proof.
  intros Hsep. rewrite <- (split_fuel_enough sep s (S (length s))) by (auto; lia).
  cbn [Py.split_fuel]. destruct (Py.cut sep s) as [[b a]|] eqn:E; [|reflexivity].
  f_equal. apply split_fuel_enough; [assumption|].
  apply cut_length in E. lia.
Qed.

(** Induction along the cuts of [split]. *)
Lemma split_ind sep (P : str → Prop) :
  sep ≠ [] →
  (∀ s, Py.cut sep s = None → P s) →
  (∀ s b a, Py.cut sep s = Some (b, a) → P a → P s) →
  ∀ s, P s.
Proof.
  intros Hsep Hnone Hsome s.
  remember (length s) as m eqn:Hm. revert s Hm.
  induction m as [m IH] using lt_wf_ind. intros s ->.
  destruct (Py.cut sep s) as [[b a]|] eqn:E; [|auto].
  apply (Hsome s b a E). apply (IH (length a)); [|reflexivity].
  apply cut_length in E.
  assert (0 < length sep) by (destruct sep; [congruence | simpl; lia]). lia.
Qed.

Lemma split_not_nil sep s : Py.split sep s ≠ [].
Proof. unfold Py.split. destruct (length s); simpl; [|destruct (Py.cut sep s) as [[??]|]]; discriminate. Qed.

Lemma join_cons sep x l : l ≠ [] → Py.join sep (x :: l) = x ++ sep ++ Py.join sep l.
Proof. destruct l; [congruence | reflexivity]. Qed.

(** Joining the fragments with the separator gives the text back. *)
Lemma join_split sep s : sep ≠ [] → Py.join sep (Py.split sep s) = s.
Proof.
  intros Hsep. pattern s; apply (split_ind sep); [assumption|clear s; intros s E|clear s; intros s b a E IH].
  - rewrite split_unfold, E by assumption. reflexivity.
  - rewrite split_unfold, E by assumption.
    rewrite join_cons by apply split_not_nil.
    rewrite IH. symmetry. apply cut_Some. assumption.
Qed.

(** No fragment holds the separator. *)
Lemma split_free sep s :
  sep ≠ [] → Forall (λ m, Py.contains sep m = false) (Py.split sep s).
Proof.
  intros Hsep. pattern s; apply (split_ind sep); [assumption|clear s; intros s E|clear s; intros s b a E IH].
  - rewrite split_unfold, E by assumption.
    constructor; [|constructor]. apply cut_None_contains. assumption.
  - rewrite split_unfold, E by assumption.
    constructor; [|assumption]. eapply cut_before_free; eassumption.
Qed.

(** Every fragment is a piece of the text. *)
Lemma split_infix sep s m :
  sep ≠ [] → m ∈ Py.split sep s → ∃ l r, s = l ++ m ++ r.
Proof.
  intros Hsep. pattern s; apply (split_ind sep); [assumption|clear s; intros s E|clear s; intros s b a E IH].
  - rewrite split_unfold, E by assumption.
    intros ->%list_elem_of_singleton. exists [], []. rewrite app_nil_r. reflexivity.
  - rewrite split_unfold, E by assumption.
    apply cut_Some in E. subst s.
    intros [->|Hin]%elem_of_cons.
    + exists [], (sep ++ a). reflexivity.
    + destruct (IH Hin) as (l & r & ->).
      exists (b ++ sep ++ l), r. rewrite <- !app_assoc. reflexivity.
Qed.

(** ** [strip] *)

Lemma lstrip_spec s :
  ∃ l, s = l ++ Py.lstrip s ∧ blank l ∧
       ∀ c, head (Py.lstrip s) = Some c → Py.is_space c = false.
Proof.
  induction s as [|x s (l & Hs & Hl & Hh)]; simpl.
  - exists []. repeat split; [constructor | discriminate].
  - destruct (Py.is_space x) eqn:E.
    + exists (x :: l). repeat split; [simpl; congruence | constructor; assumption | assumption].
    + exists []. repeat split; [constructor | intros c [= <-]; assumption].
Qed.

Lemma lstrip_blank s : blank s → Py.lstrip s = [].
Proof. induction 1 as [|x s Hx _ IH]; simpl; [reflexivity | rewrite Hx; assumption]. Qed.

Lemma lstrip_app_blank l s : blank l → Py.lstrip (l ++ s) = Py.lstrip s.
Proof. induction 1 as [|x l Hx _ IH]; simpl; [reflexivity | rewrite Hx; assumption]. Qed.

Lemma blank_reverse s : blank s → blank (reverse s).
Proof. unfold blank. rewrite !Forall_forall. intros H c Hc. apply H. apply elem_of_reverse. exact Hc. Qed.

(** [strip] removes a blank prefix and a blank suffix, and what is left
    neither starts nor ends with whitespace. *)
Lemma strip_spec s :
  ∃ l r, s = l ++ Py.strip s ++ r ∧ blank l ∧ blank r ∧
         (∀ c, head (Py.strip s) = Some c → Py.is_space c = false) ∧
         (∀ c, last (Py.strip s) = Some c → Py.is_space c = false).
Proof.
  unfold Py.strip, Py.rstrip.
  destruct (lstrip_spec s) as (l & Hs & Hl & Hh).
  destruct (lstrip_spec (reverse (Py.lstrip s))) as (r & Hr & Hbr & Hhr).
  set (t := Py.lstrip s) in *. set (u := Py.lstrip (reverse t)) in *.
  assert (t = reverse u ++ reverse r) as Ht.
  { rewrite <- reverse_app, <- Hr, reverse_involutive. reflexivity. }
  exists l, (reverse r). repeat split.
  - rewrite <- Ht. exact Hs.
  - exact Hl.
  - apply blank_reverse. exact Hbr.
  - intros c Hc. apply Hh. rewrite Ht.
    destruct (reverse u); [discriminate | exact Hc].
  - intros c Hc. apply Hhr. rewrite last_reverse in Hc. exact Hc.
Qed.

Lemma strip_blank s : Py.strip s = [] ↔ blank s.
Proof.
  split.
  - intros H. destruct (strip_spec s) as (l & r & Hs & Hl & Hr & _).
    rewrite H in Hs. rewrite Hs. apply Forall_app. split; assumption.
  - intros H. unfold Py.strip. rewrite (lstrip_blank s H). reflexivity.
Qed.

Lemma strip_not_blank s : Py.strip s ≠ [] ↔ Exists (λ c, Py.is_space c = false) s.
Proof.
  rewrite strip_blank. unfold blank. split.
  - intros H. induction s as [|x s IH].
    + destruct H. constructor.
    + destruct (Py.is_space x) eqn:E.
      * apply Exists_cons_tl, IH. intros Hs. apply H. constructor; assumption.
      * apply Exists_cons_hd. exact E.
  - intros (c & Hc & Hsp)%Exists_exists Hall.
    rewrite Forall_forall in Hall. rewrite (Hall c Hc) in Hsp. discriminate.
Qed.

Lemma strip_length s : length (Py.strip s) ≤ length s.
Proof.
  destruct (strip_spec s) as (l & r & Hs & _).
  rewrite Hs at 2. rewrite !length_app. lia.
Qed.

(** Stripping a text that has no whitespace at either end changes nothing. *)
Lemma strip_id s :
  (∀ c, head s = Some c → Py.is_space c = false) →
  (∀ c, last s = Some c → Py.is_space c = false) → Py.strip s = s.
Proof.
  intros Hh Hl. unfold Py.strip, Py.rstrip.
  assert (∀ t, (∀ c, head t = Some c → Py.is_space c = false) → Py.lstrip t = t) as Hid.
  { intros [|x t] H; [reflexivity|]. simpl. rewrite (H x eq_refl). reflexivity. }
  rewrite (Hid s Hh), Hid, reverse_involutive; [reflexivity|].
  intros c Hc. apply Hl. rewrite <- (reverse_involutive s), last_reverse. exact Hc.
Qed.

(** ** [replace] *)

Lemma replace_fuel_enough old new s n :
  old ≠ [] → length s ≤ n → Py.replace_fuel n old new s = Py.replace old new s.
Proof.
  intros Hold. unfold Py.replace.
  remember (length s) as m eqn:Hm. revert s n Hm.
  induction m as [m IH] using lt_wf_ind. intros s n -> Hn.
  destruct n as [|n].
  - assert (length s = 0) as Hz by lia. rewrite Hz. reflexivity.
  - destruct (length s) as [|k] eqn:Hk.
    + apply length_zero_iff_nil in Hk as ->. cbn [Py.replace_fuel].
      rewrite cut_unfold.
      destruct (Py.after_prefix old []) eqn:E; [|reflexivity].
      apply after_prefix_Some in E. destruct old; [congruence | discriminate].
    + cbn [Py.replace_fuel]. destruct (Py.cut old s) as [[b a]|] eqn:E; [|reflexivity].
      pose proof (cut_length _ _ _ _ E) as Hl.
      assert (0 < length old) by (destruct old; [congruence | simpl; lia]).
      do 2 f_equal. rewrite (IH (length a)) by lia.
      symmetry. apply (IH (length a)); lia.
Qed.

Lemma replace_unfold old new s :
  old ≠ [] →
  Py.replace old new s =
  match Py.cut old s with
  | None => s
  | Some (b, a) => b ++ new ++ Py.replace old new a
  end.
Proof.
  intros Hold. rewrite <- (replace_fuel_enough old new s (S (length s))) by (auto; lia).
  cbn [Py.replace_fuel]. destruct (Py.cut old s) as [[b a]|] eqn:E; [|reflexivity].
  do 2 f_equal. apply replace_fuel_enough; [assumption|].
  apply cut_length in E. lia.
Qed.

(** Deleting the occurrences of [old], one character at a time. *)
Lemma delete_step old s :
  old ≠ [] →
  Py.replace old [] s =
  match Py.after_prefix old s with
  | Some rest => Py.replace old [] rest
  | None => match s with [] => [] | c :: s' => c :: Py.replace old [] s' end
  end.
Proof.
  intros Hold. rewrite replace_unfold, cut_unfold by assumption.
  destruct (Py.after_prefix old s) as [rest|]; [reflexivity|].
  destruct s as [|c s']; [reflexivity|].
  rewrite (replace_unfold old [] s') by assumption.
  destruct (Py.cut old s') as [[b a]|]; reflexivity.
Qed.

Lemma delete_ind old (P : str → Prop) :
  old ≠ [] →
  P [] →
  (∀ rest, P rest → P (old ++ rest)) →
  (∀ c s, Py.after_prefix old (c :: s) = None → P s → P (c :: s)) →
  ∀ s, P s.
Proof.
  intros Hold Hnil Hskip Hkeep s.
  remember (length s) as m eqn:Hm. revert s Hm.
  induction m as [m IH] using lt_wf_ind. intros s ->.
  destruct (Py.after_prefix old s) as [rest|] eqn:E.
  - apply after_prefix_Some in E as ->. apply Hskip.
    apply (IH (length rest)); [|reflexivity].
    rewrite length_app. destruct old; [congruence | simpl; lia].
  - destruct s as [|c s]; [exact Hnil|].
    apply Hkeep; [exact E|]. apply (IH (length s)); [simpl; lia | reflexivity].
Qed.

(** Once the runs of four dollar signs are deleted, what is left starts
    with fewer than four of them. *)
Lemma delete_dollars_head s j t :
  j ≤ 4 → Py.replace "$$$$" [] s = replicate j "$"%char ++ t →
  j < 4 ∧ ∃ t', s = replicate j "$"%char ++ t'.
Proof.
  assert (("$$$$" : str) ≠ []) as Hne by discriminate.
  revert j t. pattern s. apply (delete_ind "$$$$"); [exact Hne|..]; clear s.
  - intros j t Hj H. change (Py.replace "$$$$" [] []) with (@nil ascii) in H.
    destruct j; [split; [lia | exists []; reflexivity] | discriminate].
  - intros rest IH j t Hj H.
    rewrite delete_step, after_prefix_app in H by exact Hne.
    destruct (IH j t Hj H) as [Hlt _]. split; [exact Hlt|].
    exists (replicate (4 - j) "$"%char ++ rest).
    rewrite app_assoc, <- replicate_add. replace (j + (4 - j)) with 4 by lia. reflexivity.
  - intros c s E IH j t Hj H.
    rewrite delete_step, E in H by exact Hne.
    destruct j as [|j]; [split; [lia | exists (c :: s); reflexivity]|].
    simpl in H. injection H as -> H.
    destruct (IH j t ltac:(lia) H) as [Hlt [t' ->]].
    split; [|exists t'; reflexivity].
    destruct (decide (j = 3)) as [->|]; [|lia].
    change ("$"%char :: replicate 3 "$"%char ++ t') with (("$$$$" : str) ++ t') in E.
    rewrite after_prefix_app in E. discriminate.
Qed.

(** Nothing that went through [replace('$$$$', '')] holds four dollar signs
    in a row. *)
Lemma delete_dollars_free s : Py.contains "$$$$" (Py.replace "$$$$" [] s) = false.
Proof.
  assert (("$$$$" : str) ≠ []) as Hne by discriminate.
  pattern s. apply (delete_ind "$$$$"); [exact Hne|..]; clear s.
  - reflexivity.
  - intros rest IH. rewrite delete_step, after_prefix_app by exact Hne. exact IH.
  - intros c s E IH. rewrite delete_step, E by exact Hne.
    rewrite contains_unfold.
    destruct (Py.after_prefix "$$$$" (c :: Py.replace "$$$$" [] s)) as [l|] eqn:E2; [|exact IH].
    apply after_prefix_Some in E2.
    assert (Py.replace "$$$$" [] (c :: s) = replicate 4 "$"%char ++ l) as H.
    { rewrite delete_step, E by exact Hne. exact E2. }
    apply delete_dollars_head in H as [? _]; lia.
Qed.

(** ** The trailing delimiter *)

Lemma cut_app sep s t b a :
  Py.cut sep s = Some (b, a) → Py.cut sep (s ++ t) = Some (b, a ++ t).
Proof.
  revert b; induction s as [|c s IH]; intros b; rewrite cut_unfold.
  - destruct (Py.after_prefix sep []) eqn:E; [|discriminate].
    intros [= <- <-]. apply after_prefix_Some in E.
    destruct sep; [|discriminate]. simpl in E. subst l.
    rewrite cut_unfold. reflexivity.
  - destruct (Py.after_prefix sep (c :: s)) eqn:E.
    + intros [= <- <-]. apply after_prefix_Some in E.
      rewrite cut_unfold, E, <- app_assoc, after_prefix_app. reflexivity.
    + destruct (Py.cut sep s) as [[b' a']|] eqn:E'; [|discriminate].
      intros [= <- <-]. rewrite cut_unfold.
      rewrite after_prefix_None_app; [|apply cut_length in E'; simpl; lia|exact E].
      simpl. rewrite (IH b' eq_refl). reflexivity.
Qed.

Lemma cut_trailing_delimiter data :
  Py.cut delimiter data = None →
  Py.cut delimiter (data ++ delimiter) = Some (data, []).
Proof.
  induction data as [|c d IH]; [reflexivity|].
  rewrite cut_unfold.
  destruct (Py.after_prefix delimiter (c :: d)) eqn:E; [discriminate|].
  destruct (Py.cut delimiter d) as [[??]|] eqn:E'; [discriminate|]. intros _.
  rewrite cut_unfold.
  assert (Py.after_prefix delimiter ((c :: d) ++ delimiter) = None) as ->.
  { destruct (decide (length delimiter ≤ length (c :: d))) as [Hl|Hl].
    - apply after_prefix_None_app; assumption.
    - destruct (Py.after_prefix delimiter ((c :: d) ++ delimiter)) eqn:E2; [|reflexivity].
      apply after_prefix_Some in E2. exfalso.
      destruct d as [|c2 [|c3 [|c4 [|c5 d]]]]; simpl in Hl; try lia;
        discriminate E2. }
  simpl. rewrite (IH eq_refl). reflexivity.
Qed.

Lemma split_trailing_delimiter data :
  Py.split delimiter (data ++ delimiter) = Py.split delimiter data ++ [[]].
Proof.
  assert (delimiter ≠ []) as Hne by discriminate.
  pattern data. apply (split_ind delimiter); [exact Hne|..]; clear data.
  - intros s E. rewrite (split_unfold _ (s ++ _)), cut_trailing_delimiter by assumption.
    rewrite (split_unfold _ s), E by assumption. reflexivity.
  - intros s b a E IH.
    rewrite (split_unfold _ (s ++ _)), (cut_app _ _ _ _ _ E) by assumption.
    rewrite (split_unfold _ s), E by assumption. rewrite IH. reflexivity.
Qed.

(** ** The first line *)

Lemma cut_first_line s :
  match Py.cut [Py.nl] s with
  | Some (b, _) => b = first_line s
  | None => s = first_line s
  end.
Proof.
  induction s as [|c s IH]; [reflexivity|].
  rewrite cut_unfold. simpl.
  destruct (decide (Py.nl = c)) as [<-|Hne].
  - rewrite decide_True by reflexivity. reflexivity.
  - rewrite decide_False by congruence.
    destruct (Py.cut [Py.nl] s) as [[b a]|]; congruence.
Qed.

Lemma split_first_line s : head (Py.split [Py.nl] s) = Some (first_line s).
Proof.
  rewrite split_unfold by discriminate.
  pose proof (cut_first_line s) as H.
  destruct (Py.cut [Py.nl] s) as [[b a]|]; simpl; congruence.
Qed.

End StringFacts.

(** * The record splitter *)

Lemma mol_strings_eq data :
  mol_strings data =
  (λ m, m ++ delimiter) <$> filter (λ m, ¬ blank m) (Py.split delimiter data).
Proof.
  unfold mol_strings. f_equal. apply list_filter_iff.
  intros m. rewrite strip_blank. reflexivity.
Qed.

(** C8: splitting yields exactly the fragments between delimiters that hold
    a character other than whitespace, each followed by the delimiter again;
    the fragments are what the delimiter separates (joined by it they give
    the text back, and none holds it); blank fragments are dropped, so a
    delimiter at the end of the text adds no record. *)
Theorem mol_strings_fragments data :
  mol_strings data =
    (λ m, m ++ delimiter) <$> filter (λ m, ¬ blank m) (Py.split delimiter data)
  ∧ Py.join delimiter (Py.split delimiter data) = data
  ∧ Forall (λ m, Py.contains delimiter m = false) (Py.split delimiter data)
  ∧ Forall (λ r, ∃ m, r = m ++ delimiter ∧ m ∈ Py.split delimiter data
                      ∧ Exists (λ c, Py.is_space c = false) m) (mol_strings data)
  ∧ mol_strings (data ++ delimiter) = mol_strings data.
Proof.
  assert (delimiter ≠ []) as Hne by discriminate.
  split; [apply mol_strings_eq|].
  split; [apply join_split; exact Hne|].
  split; [apply split_free; exact Hne|].
  split.
  - unfold mol_strings. apply Forall_forall. intros r Hr.
    apply list_elem_of_fmap in Hr as (m & -> & Hm).
    apply list_elem_of_filter in Hm as [Hm Hin].
    exists m. split; [reflexivity|]. split; [exact Hin|].
    apply strip_not_blank. exact Hm.
  - unfold mol_strings. rewrite split_trailing_delimiter, filter_app.
    rewrite (filter_cons_False _ []), filter_nil, app_nil_r; [reflexivity|].
    intros H. apply H. reflexivity.
Qed.

(** * The property extractor *)

Lemma get_mol_string_name_eq record :
  get_mol_string_name record = Py.strip (first_line record).
Proof.
  unfold get_mol_string_name. pose proof (split_first_line record) as H.
  destruct (Py.split [Py.nl] record); [discriminate|].
  injection H as ->. reflexivity.
Qed.

Lemma make_hit_fields growing record hit :
  make_hit growing record = Ok hit →
  hit_name hit = take 254 (get_mol_string_name record)
  ∧ hit_file_string hit = record
  ∧ hit_file_type hit = "sdf"
  ∧ hit_growing hit = growing_id growing
  ∧ get_mol_string_prop "Score" record (Some float) = Ok (hit_score hit).
Proof.
  unfold make_hit.
  destruct (get_mol_string_prop "Score" record (Some float)) as [score|]; [|discriminate].
  cbn [mbind result_bind].
  destruct (if decide (1 < length (complex_set (ensemble growing)))
            then ensemble_loop record (complex_set (ensemble growing)) ∅
            else Ok ∅) as [scores|]; [|discriminate].
  cbn [mbind result_bind]. intros [= <-]. simpl. repeat split; reflexivity.
Qed.

(** With a caster, extraction finds the same block as without one and hands
    its text to the caster. *)
Lemma prop_scan_cast prop cast elements :
  prop_scan prop (Some cast) elements =
  match prop_scan prop None elements with
  | Ok (Some (PyStr value)) => v ← cast value; Ok (Some v)
  | other => other
  end.
Proof.
  induction elements as [|element rest IH]; [reflexivity|]. simpl.
  destruct (property_pair element) as [|key values]; [reflexivity|].
  destruct (decide (key ≠ prop)); [exact IH|].
  destruct values; reflexivity.
Qed.

Lemma get_mol_string_prop_cast prop record cast :
  get_mol_string_prop prop record (Some cast) =
  match get_mol_string_prop prop record None with
  | Ok (Some (PyStr value)) => v ← cast value; Ok (Some v)
  | other => other
  end.
Proof. apply prop_scan_cast. Qed.

Lemma prop_scan_absent prop cast elements :
  prop ∉ omap (λ element, head (property_pair element)) elements →
  prop_scan prop cast elements = Ok None.
Proof.
  induction elements as [|element rest IH]; [reflexivity|]. simpl.
  destruct (property_pair element) as [|key values] eqn:E; simpl.
  - intros _. (* [split] never answers the empty list *)
    unfold property_pair in E. apply fmap_nil_inv in E.
    destruct (split_not_nil _ _ E).
  - intros Hnot. apply not_elem_of_cons in Hnot as [Hne Hrest].
    rewrite decide_True by congruence. apply IH. exact Hrest.
Qed.

Lemma get_mol_string_prop_absent prop record cast :
  prop ∉ record_keys record → get_mol_string_prop prop record cast = Ok None.
Proof. apply prop_scan_absent. Qed.

(** Without a caster the extractor answers a text or nothing. *)
Lemma prop_scan_text prop elements v :
  prop_scan prop None elements = Ok (Some v) → ∃ value, v = PyStr value.
Proof.
  induction elements as [|element rest IH]; [discriminate|]. simpl.
  destruct (property_pair element) as [|key values]; [discriminate|].
  destruct (decide (key ≠ prop)); [exact IH|].
  destruct values as [|value ?]; [discriminate|].
  intros [= <-]. exists value. reflexivity.
Qed.


(** What is extracted, block by block: the first block whose key is the
    property decides, and the value is the second of the pieces its cleaned
    text falls into at each [>] that ends a line. *)
Lemma prop_scan_found prop elements v :
  prop_scan prop None elements = Ok (Some v) →
  ∃ before element after key value rest,
    elements = before ++ element :: after
    ∧ Forall (λ el, head (property_pair el) ≠ Some prop) before
    ∧ Py.split key_end (Py.replace "$$$$" [] element) = key :: value :: rest
    ∧ Py.strip key = prop
    ∧ v = PyStr (Py.strip value).
Proof.
  induction elements as [|element others IH]; [discriminate|]. simpl.
  destruct (property_pair element) as [|key values] eqn:E; [discriminate|].
  destruct (decide (key ≠ prop)) as [Hne|Heq].
  - intros (before & el & after & k & value & rest & -> & Hb & Hs & Hk & Hv)%IH.
    exists (element :: before), el, after, k, value, rest.
    repeat split; try assumption.
    constructor; [|assumption]. rewrite E. simpl. congruence.
  - apply dec_stable in Heq. subst key.
    destruct values as [|value values]; [discriminate|]. intros [= <-].
    unfold property_pair in E.
    destruct (Py.split key_end (Py.replace "$$$$" [] element)) as [|k [|v0 rest]] eqn:Es;
      try discriminate.
    injection E as Hk Hv Hrest.
    exists [], element, others, k, v0, rest.
    split; [reflexivity|]. split; [constructor|]. split; [exact Es|].
    split; [exact Hk|]. rewrite Hv. reflexivity.
Qed.

(** * Plain records *)

Lemma cut_skip c sep' x y :
  Forall (λ d, d ≠ c) x →
  Py.cut (c :: sep') (x ++ y) = (λ ba, (x ++ ba.1, ba.2)) <$> Py.cut (c :: sep') y.
Proof.
  induction 1 as [|d x Hd _ IH].
  - simpl app. destruct (Py.cut (c :: sep') y) as [[b a]|]; reflexivity.
  - change ((d :: x) ++ y) with (d :: (x ++ y)). rewrite cut_unfold.
    assert (Py.after_prefix (c :: sep') (d :: x ++ y) = None) as ->.
    { simpl. rewrite decide_False by congruence. reflexivity. }
    rewrite IH. destruct (Py.cut (c :: sep') y) as [[b a]|]; reflexivity.
Qed.

Lemma cut_at sep y : Py.cut sep (sep ++ y) = Some ([], y).
Proof. rewrite cut_unfold, after_prefix_app. reflexivity. Qed.

Lemma cut_plain c sep' x y :
  Forall (λ d, d ≠ c) x → Py.cut (c :: sep') (x ++ (c :: sep') ++ y) = Some (x, y).
Proof.
  intros Hx. rewrite (cut_skip c sep' x _ Hx), cut_at. simpl. rewrite app_nil_r. reflexivity.
Qed.

Lemma cut_none c sep' x : Forall (λ d, d ≠ c) x → Py.cut (c :: sep') x = None.
Proof.
  intros Hx. rewrite <- (app_nil_r x), (cut_skip c sep' x [] Hx). reflexivity.
Qed.

Lemma plain_no_gt x : plain x → Forall (λ d, d ≠ ">"%char) x.
Proof. intros Hx. eapply Forall_impl; [exact Hx|]. intros d [H _]. exact H. Qed.

Lemma plain_no_dollar x : plain x → Forall (λ d, d ≠ "$"%char) x.
Proof. intros Hx. eapply Forall_impl; [exact Hx|]. intros d [_ H]. exact H. Qed.

Lemma plain_app x y : plain x → plain y → plain (x ++ y).
Proof. intros Hx Hy. apply Forall_app. split; assumption. Qed.

Lemma plain_nl : plain [Py.nl; Py.nl].
Proof. repeat constructor; discriminate. Qed.

Lemma safe_plain x : plain x → marker_safe x.
Proof.
  intros Hx%plain_no_gt. split.
  - intros y. apply (cut_plain ">" [" "; "<"]%char x y Hx).
  - change marker with (">"%char :: [" "; "<"]%char).
    rewrite (cut_skip _ _ x delimiter Hx). reflexivity.
Qed.

Lemma block_body_cut k v y :
  plain k → plain v →
  Py.cut marker (block_body (k, v) ++ y)
  = (λ ba, (block_body (k, v) ++ ba.1, ba.2)) <$> Py.cut marker y.
Proof.
  intros Hk%plain_no_gt Hv%plain_no_gt.
  unfold block_body. simpl fst. simpl snd.
  change marker with (">"%char :: [" "; "<"]%char).
  rewrite <- !app_assoc. rewrite (cut_skip _ _ k _ Hk).
  replace (key_end ++ v ++ [Py.nl; Py.nl] ++ y)
    with (">"%char :: ((Py.nl :: v ++ [Py.nl; Py.nl]) ++ y))
    by (unfold key_end; simpl; rewrite <- app_assoc; reflexivity).
  rewrite cut_unfold.
  change (Py.after_prefix (">"%char :: [" "; "<"]%char)
            (">"%char :: (Py.nl :: v ++ [Py.nl; Py.nl]) ++ y)) with (@None str).
  cbv beta iota.
  rewrite (cut_skip _ _ (Py.nl :: v ++ [Py.nl; Py.nl]) y).
  - destruct (Py.cut (">"%char :: [" "; "<"]%char) y) as [[b a]|]; simpl; [|reflexivity].
    do 2 f_equal. unfold key_end. simpl. rewrite <- !app_assoc. simpl.
    rewrite <- ?app_assoc. reflexivity.
  - constructor; [discriminate|]. apply Forall_app. split; [exact Hv|].
    repeat constructor; discriminate.
Qed.

Lemma safe_body k v : plain k → plain v → marker_safe (block_body (k, v)).
Proof.
  intros Hk Hv. split.
  - intros y. rewrite (block_body_cut k v _ Hk Hv), cut_at. simpl.
    rewrite app_nil_r. reflexivity.
  - rewrite (block_body_cut k v _ Hk Hv). reflexivity.
Qed.

(** The elements of a plain record. *)
Lemma split_plain_record e props :
  marker_safe e → Forall (λ kv, plain kv.1 ∧ plain kv.2) props →
  Py.split marker (e ++ concat ((λ kv, marker ++ block_body kv) <$> props) ++ delimiter)
  = record_elements e props.
Proof.
  assert (marker ≠ []) as Hne by discriminate.
  intros He Hprops. revert e He.
  induction Hprops as [|[k v] props [Hk Hv] _ IH]; intros e [Hcut Hend].
  - simpl. rewrite split_unfold, Hend by exact Hne. reflexivity.
  - rewrite fmap_cons. cbn [concat record_elements]. rewrite <- !app_assoc.
    rewrite split_unfold, Hcut by exact Hne.
    rewrite IH; [reflexivity|]. apply safe_body; assumption.
Qed.

Lemma lstrip_app_not_blank s r :
  Exists (λ c, Py.is_space c = false) s → Py.lstrip (s ++ r) = Py.lstrip s ++ r.
Proof.
  induction s as [|c s IH]; [intros H; inversion H|].
  intros H. simpl. destruct (Py.is_space c) eqn:E; [|reflexivity].
  apply IH. inversion H; [congruence | assumption].
Qed.

Lemma rstrip_app_blank s r : blank r → Py.rstrip (s ++ r) = Py.rstrip s.
Proof.
  intros Hr. unfold Py.rstrip. rewrite reverse_app, lstrip_app_blank; [reflexivity|].
  apply blank_reverse. exact Hr.
Qed.

(** Whitespace added at the end does not change what [strip] leaves. *)
Lemma strip_app_blank s r : blank r → Py.strip (s ++ r) = Py.strip s.
Proof.
  intros Hr. unfold Py.strip.
  destruct (decide (blank s)) as [Hs|Hs].
  - rewrite (lstrip_blank s Hs), lstrip_blank; [reflexivity|].
    apply Forall_app. split; assumption.
  - rewrite lstrip_app_not_blank, rstrip_app_blank; [reflexivity | exact Hr|].
    apply strip_not_blank. rewrite strip_blank. exact Hs.
Qed.

Lemma delete_plain x :
  Forall (λ d, d ≠ "$"%char) x → Py.replace "$$$$" [] x = x.
Proof.
  intros Hx. rewrite replace_unfold by discriminate.
  change ("$$$$" : str) with ("$"%char :: ["$"; "$"; "$"]%char).
  rewrite (cut_none _ _ x Hx). reflexivity.
Qed.

Lemma delete_plain_delimiter x :
  Forall (λ d, d ≠ "$"%char) x → Py.replace "$$$$" [] (x ++ delimiter) = x ++ [Py.nl].
Proof.
  intros Hx. rewrite replace_unfold by discriminate.
  change ("$$$$" : str) with ("$"%char :: ["$"; "$"; "$"]%char).
  change delimiter with (("$"%char :: ["$"; "$"; "$"]%char) ++ [Py.nl]).
  rewrite (cut_plain _ _ x [Py.nl] Hx). reflexivity.
Qed.

(** The text after the last block, once the delimiter's dollars are gone. *)
Lemma cleaned_end x :
  Forall (λ d, d ≠ "$"%char) x →
  ∀ e, e = x ∨ e = x ++ delimiter →
       ∃ t, Py.replace "$$$$" [] e = x ++ t ∧ blank t ∧ plain t.
Proof.
  intros Hx e [->| ->].
  - exists []. rewrite delete_plain, app_nil_r by exact Hx.
    split; [reflexivity|]. split; constructor.
  - exists [Py.nl]. rewrite delete_plain_delimiter by exact Hx.
    split; [reflexivity|]. split; repeat constructor; discriminate.
Qed.

Lemma property_pair_header x e :
  plain x → e = x ∨ e = x ++ delimiter → property_pair e = [Py.strip x].
Proof.
  intros Hx He. unfold property_pair.
  destruct (cleaned_end x (plain_no_dollar x Hx) e He) as (t & -> & Hblank & Hplain).
  rewrite split_unfold by discriminate.
  change key_end with (">"%char :: [Py.nl]).
  rewrite cut_none by (apply plain_no_gt, plain_app; assumption).
  simpl. rewrite strip_app_blank by exact Hblank. reflexivity.
Qed.

Lemma property_pair_body k v e :
  plain k → plain v →
  e = block_body (k, v) ∨ e = block_body (k, v) ++ delimiter →
  property_pair e = [Py.strip k; Py.strip v].
Proof.
  intros Hk Hv He. unfold property_pair.
  assert (Forall (λ d, d ≠ "$"%char) (block_body (k, v))) as Hbody.
  { unfold block_body. simpl. apply Forall_app. split; [apply plain_no_dollar, Hk|].
    constructor; [discriminate|]. constructor; [discriminate|].
    apply Forall_app. split; [apply plain_no_dollar, Hv|]. repeat constructor; discriminate. }
  destruct (cleaned_end _ Hbody e He) as (t & -> & Hblank & Hplain).
  unfold block_body. simpl fst. simpl snd. rewrite <- !app_assoc.
  change key_end with (">"%char :: [Py.nl]).
  rewrite split_unfold, (cut_plain _ _ k _ (plain_no_gt k Hk)) by discriminate.
  rewrite split_unfold by discriminate.
  rewrite cut_none.
  2: { apply plain_no_gt. apply plain_app; [exact Hv|].
       apply plain_app; [apply plain_nl | exact Hplain]. }
  simpl. rewrite strip_app_blank; [reflexivity|].
  constructor; [reflexivity|]. constructor; [reflexivity | exact Hblank].
Qed.

(** The scan over the elements of a plain record, from an element whose
    pieces are known. *)
Lemma prop_scan_elements prop e props pieces :
  property_pair e = pieces → property_pair (e ++ delimiter) = pieces →
  Forall (λ kv, plain kv.1 ∧ plain kv.2) props →
  prop_scan prop None (record_elements e props)
  = match pieces with
    | [] => Raise IndexError
    | key :: values =>
        if decide (key = prop)
        then match values with
             | [] => Raise IndexError
             | value :: _ => Ok (Some (PyStr value))
             end
        else Ok (PyStr <$> first_value prop props)
    end.
Proof.
  intros He Hed Hprops. revert e pieces He Hed.
  induction Hprops as [|[k v] props [Hk Hv] _ IH]; intros e pieces He Hed.
  - simpl. rewrite Hed. destruct pieces as [|key values]; [reflexivity|].
    destruct (decide (key = prop)) as [->|Hne].
    + rewrite decide_False by (intros H; apply H; reflexivity). reflexivity.
    + rewrite decide_True by exact Hne. reflexivity.
  - cbn [record_elements prop_scan]. rewrite He.
    destruct pieces as [|key values]; [reflexivity|].
    destruct (decide (key = prop)) as [->|Hne].
    + rewrite decide_False by (intros H; apply H; reflexivity). reflexivity.
    + rewrite decide_True by exact Hne.
      rewrite (IH (block_body (k, v)) [Py.strip k; Py.strip v]).
      * simpl. destruct (decide (Py.strip k = prop)); reflexivity.
      * apply property_pair_body; auto.
      * apply property_pair_body; auto.
Qed.

(** Extraction on a plain record, without a caster. *)
Lemma plain_record_prop prop header props :
  plain header → Forall (λ kv, plain kv.1 ∧ plain kv.2) props →
  Py.strip header ≠ prop →
  get_mol_string_prop prop (render_record header props) None
  = Ok (PyStr <$> first_value prop props).
Proof.
  intros Hh Hprops Hne. unfold get_mol_string_prop, render_record.
  rewrite split_plain_record by (try apply safe_plain; assumption).
  rewrite (prop_scan_elements prop header props [Py.strip header]).
  - rewrite decide_False by exact Hne. reflexivity.
  - apply property_pair_header with (x := header); auto.
  - apply property_pair_header with (x := header); auto.
  - exact Hprops.
Qed.

Lemma plain_record_float prop header props :
  plain header → Forall (λ kv, plain kv.1 ∧ plain kv.2) props →
  Py.strip header ≠ prop →
  get_mol_string_prop prop (render_record header props) (Some float)
  = match first_value prop props with
    | Some value => x ← float value; Ok (Some x)
    | None => Ok None
    end.
Proof.
  intros Hh Hprops Hne.
  rewrite get_mol_string_prop_cast, plain_record_prop by assumption.
  destruct (first_value prop props); reflexivity.
Qed.


(** * Ingestion: one file, one scan *)

Section Ingestion.

Context (w : World) (growing : Growing).

Lemma set_db_id st : set_db (db st) st = st.
Proof. destruct st; reflexivity. Qed.

(** The loop of [add_hits] appends the rows of the file, or stops at the
    first error; nothing else changes. *)
Lemma save_hits_spec mols st :
  ∃ rows,
    save_hits w growing mols st =
      (match file_hits w growing mols with Ok _ => Ok () | Raise e => Raise e end,
       set_db rows st)
    ∧ ∀ hits, file_hits w growing mols = Ok hits → rows = db st ++ hits.
Proof.
  revert st. induction mols as [|m rest IH]; intros st.
  - exists (db st). simpl. unfold ret. rewrite set_db_id.
    split; [reflexivity|]. intros hits [= <-]. rewrite app_nil_r. reflexivity.
  - simpl. unfold bind at 1, lift.
    destruct (make_hit growing m) as [hit|e]; cbn [mbind result_bind].
    + unfold bind at 1, save.
      destruct (db_accepts w hit).
      * destruct (IH (set_db (db st ++ [hit]) st)) as (rows & Heq & Hrows).
        exists rows. rewrite Heq. simpl.
        destruct (file_hits w growing rest) as [hits|e]; cbn [mbind result_bind].
        -- split; [reflexivity|]. intros ? [= <-].
           rewrite (Hrows hits eq_refl). simpl. rewrite <- app_assoc. reflexivity.
        -- split; [reflexivity | discriminate].
      * exists (db st). rewrite set_db_id. split; [reflexivity | discriminate].
    + exists (db st). rewrite set_db_id. split; [reflexivity | discriminate].
Qed.

Lemma add_hits_spec f data st r st' :
  add_hits w growing f data st = (r, st') →
  seen_files st' = seen_files st ∧ status st' = status st
  ∧ trace st' = trace st ++ [EvAddHits f]
  ∧ match file_hits w growing (mol_strings data) with
    | Ok hits => r = Ok () ∧ db st' = db st ++ hits
    | Raise e => r = Raise e
    end.
Proof.
  unfold add_hits, bind, log.
  match goal with |- context [save_hits _ _ _ ?s] =>
    destruct (save_hits_spec (mol_strings data) s) as (rows & -> & Hrows) end.
  destruct (file_hits w growing (mol_strings data)) as [hits|e];
    intros [= <- <-]; simpl; repeat split; try reflexivity.
  apply (Hrows hits eq_refl).
Qed.

Lemma fresh_not_seen seen found f : f ∈ (fresh seen found).*1 → f ∉ seen.
Proof.
  revert seen. induction found as [|[g data] rest IH]; intros seen; simpl.
  - intros ?%elem_of_nil. contradiction.
  - destruct (decide (g ∈ seen)); [apply IH|].
    simpl. intros [->|Hin]%elem_of_cons; [assumption|].
    apply IH in Hin. set_solver.
Qed.

Lemma fresh_NoDup seen found : NoDup (fresh seen found).*1.
Proof.
  revert seen. induction found as [|[g data] rest IH]; intros seen; simpl.
  - constructor.
  - destruct (decide (g ∈ seen)); [apply IH|].
    simpl. constructor; [|apply IH].
    intros Hin%fresh_not_seen. set_solver.
Qed.

Lemma fresh_subset seen found fd : fd ∈ fresh seen found → fd ∈ found.
Proof.
  revert seen. induction found as [|[g data] rest IH]; intros seen; simpl.
  - intros ?%elem_of_nil. contradiction.
  - destruct (decide (g ∈ seen)).
    + intros ?%IH. apply elem_of_cons. right. assumption.
    + intros [->|?%IH]%elem_of_cons; apply elem_of_cons; [left | right]; auto.
Qed.


Lemma fresh_app seen l1 l2 :
  fresh seen (l1 ++ l2) =
  fresh seen l1 ++ fresh (seen ∪ list_to_set (fresh seen l1).*1) l2.
Proof.
  revert seen. induction l1 as [|[g d] rest IH]; intros seen; simpl.
  - f_equal. set_solver.
  - destruct (decide (g ∈ seen)); [apply IH|].
    simpl. f_equal. rewrite IH. do 2 f_equal. set_solver.
Qed.

Lemma batches_app l1 l2 :
  batches w growing (l1 ++ l2) =
  (hits ← batches w growing l1; more ← batches w growing l2; Ok (hits ++ more)).
Proof.
  induction l1 as [|[g d] rest IH]; simpl.
  - destruct (batches w growing l2); reflexivity.
  - destruct (file_hits w growing (mol_strings d)) as [hits|]; [|reflexivity].
    cbn [mbind result_bind]. rewrite IH.
    destruct (batches w growing rest) as [more|]; [|reflexivity].
    cbn [mbind result_bind].
    destruct (batches w growing l2) as [more2|]; [|reflexivity].
    cbn [mbind result_bind]. rewrite app_assoc. reflexivity.
Qed.

(** The loop of [process_hits]: it calls [add_hits] for new files only, in
    the order of the scan, marks each one seen once it is ingested, and
    stops at the first error. *)
Lemma hit_files_spec found st r st' :
  hit_files w growing found st = (r, st') →
  status st' = status st
  ∧ (∃ fs, fs `prefix_of` (fresh (seen_files st) found).*1
           ∧ trace st' = trace st ++ (EvAddHits <$> fs)
           ∧ seen_files st ⊆ seen_files st'
           ∧ seen_files st' ⊆ seen_files st ∪ list_to_set fs
           ∧ (r = Ok () → fs = (fresh (seen_files st) found).*1
                          ∧ seen_files st' = seen_files st ∪ list_to_set fs))
  ∧ match batches w growing (fresh (seen_files st) found) with
    | Ok hits => r = Ok () ∧ db st' = db st ++ hits
    | Raise e => r = Raise e
    end.
Proof.
  revert st. induction found as [|[f data] rest IH]; intros st.
  - simpl. unfold ret. intros [= <- <-]. split; [reflexivity|]. split.
    + exists []. simpl. rewrite app_nil_r.
      repeat split; try reflexivity; set_solver.
    + rewrite app_nil_r. split; reflexivity.
  - cbn [hit_files fresh]. unfold bind at 1, is_seen.
    destruct (decide (f ∈ seen_files st)) as [Hin|Hnin].
    + rewrite bool_decide_eq_true_2 by assumption. apply IH.
    + rewrite bool_decide_eq_false_2 by assumption.
      unfold bind at 1.
      destruct (add_hits w growing f data st) as [r1 st1] eqn:Ha.
      apply add_hits_spec in Ha as (Hseen1 & Hstat1 & Htr1 & Hdb1).
      cbn [batches].
      destruct (file_hits w growing (mol_strings data)) as [hits|e];
        cbn [mbind result_bind].
      * destruct Hdb1 as [-> Hdb1]. unfold bind at 1, seen_add.
        match goal with |- hit_files _ _ _ ?s = _ → _ => set (st2 := s) end.
        intros Hrun. apply IH in Hrun as (Hstat & (fs & Hpre & Htr & Hsub1 & Hsub2 & Hok) & Hdb).
        assert (seen_files st2 = {[f]} ∪ seen_files st) as Hs2
          by (simpl; rewrite Hseen1; reflexivity).
        rewrite Hs2 in *. simpl in Hstat, Htr, Hdb.
        split; [congruence|]. split.
        -- exists (f :: fs). split; [apply prefix_cons; assumption|].
           split; [rewrite Htr, Htr1, <- app_assoc; reflexivity|].
           split; [set_solver|]. split; [set_solver|].
           intros Hr. destruct (Hok Hr) as [-> ->]. split; [reflexivity | set_solver].
        -- destruct (batches w growing (fresh ({[f]} ∪ seen_files st) rest)) as [more|e];
             cbn [mbind result_bind]; [|exact Hdb].
           destruct Hdb as [-> Hdb]. split; [reflexivity|].
           rewrite Hdb, Hdb1, <- app_assoc. reflexivity.
      * subst r1. intros [= <- <-]. split; [assumption|]. split; [|reflexivity].
        exists [f]. split; [apply prefix_cons, prefix_nil|].
        split; [assumption|]. rewrite Hseen1.
        split; [set_solver|]. split; [set_solver | discriminate].
Qed.

(** One call of [process_hits]: the transaction commits the rows of all
    the new files together, or none of them. *)
Lemma process_hits_spec found st r st' :
  process_hits w growing found st = (r, st') →
  status st' = status st
  ∧ (∃ fs, fs `prefix_of` (fresh (seen_files st) found).*1
           ∧ trace st' = trace st ++ EvGlob found.*1 :: (EvAddHits <$> fs)
           ∧ seen_files st ⊆ seen_files st'
           ∧ seen_files st' ⊆ seen_files st ∪ list_to_set fs
           ∧ (r = Ok () → fs = (fresh (seen_files st) found).*1
                          ∧ seen_files st' = seen_files st ∪ list_to_set fs))
  ∧ match batches w growing (fresh (seen_files st) found) with
    | Ok hits => r = Ok () ∧ db st' = db st ++ hits
    | Raise e => r = Raise e ∧ db st' = db st
    end.
Proof.
  unfold process_hits, atomic, bind at 1, log.
  match goal with |- context [hit_files _ _ _ ?s] => set (st1 := s) end.
  destruct (hit_files w growing found st1) as [r1 st2] eqn:Hrun.
  apply hit_files_spec in Hrun as (Hstat & (fs & Hpre & Htr & Hsub1 & Hsub2 & Hok) & Hdb).
  simpl in Hstat, Hpre, Htr, Hsub1, Hsub2, Hok, Hdb.
  destruct (batches w growing (fresh (seen_files st) found)) as [hits|e].
  - destruct Hdb as [-> Hdb]. intros [= <- <-].
    split; [assumption|]. split; [|split; [reflexivity | assumption]].
    exists fs. rewrite Htr, <- app_assoc. repeat split; try assumption; apply Hok; reflexivity.
  - subst r1. intros [= <- <-]. simpl.
    split; [assumption|]. split; [|split; reflexivity].
    exists fs. rewrite Htr, <- app_assoc. repeat split; try assumption; apply Hok; assumption.
Qed.

End Ingestion.

(** * The polling loop and the run *)

Section Run.

Context (w : World) (growing : Growing).

Lemma ingested_app tr1 tr2 : ingested (tr1 ++ tr2) = ingested tr1 ++ ingested tr2.
Proof. apply omap_app. Qed.

Lemma scans_app tr1 tr2 : scans (tr1 ++ tr2) = scans tr1 ++ scans tr2.
Proof. apply omap_app. Qed.

Lemma ingested_adds fs : ingested (EvAddHits <$> fs) = fs.
Proof. induction fs as [|f fs IH]; [reflexivity|]. simpl. f_equal. exact IH. Qed.

Lemma scans_adds fs : scans (EvAddHits <$> fs) = [].
Proof. induction fs as [|f fs IH]; [reflexivity | exact IH]. Qed.

Lemma polling_adds fs : Forall polling (EvAddHits <$> fs).
Proof. apply Forall_fmap, Forall_true. intros f. exact I. Qed.

Lemma extends_trans st st1 st2 tr1 tr2 ok :
  extends st st1 tr1 true → extends st1 st2 tr2 ok → extends st st2 (tr1 ++ tr2) ok.
Proof.
  intros (Hs1 & Ht1 & Hn1 & Hf1 & Ha1 & Hb1 & Hc1 & Hd1)
         (Hs2 & Ht2 & Hn2 & Hf2 & Ha2 & Hb2 & Hc2 & Hd2).
  specialize (Hc1 eq_refl).
  unfold extends. rewrite ingested_app.
  split; [congruence|]. split; [rewrite Ht2, Ht1, app_assoc; reflexivity|].
  split.
  { apply NoDup_app. split; [assumption|]. split; [|assumption].
    intros f Hin1 Hin2. apply (Hf2 f Hin2). rewrite Hc1.
    apply elem_of_union_r, elem_of_list_to_set. exact Hin1. }
  split.
  { intros f [Hin|Hin]%elem_of_app; [auto|].
    intros Hseen. apply (Hf2 f Hin). apply Ha1. exact Hseen. }
  split; [etrans; eassumption|].
  rewrite list_to_set_app_L.
  split; [rewrite Hc1 in Hb2; set_solver|].
  split; [intros Hok; rewrite (Hc2 Hok), Hc1; set_solver|].
  etrans; eassumption.
Qed.

Lemma extends_log e st :
  (∀ f, e ≠ EvAddHits f) → (∀ s, e ≠ EvSaveStatus s) →
  extends st (log e st).2 [e] true.
Proof.
  intros He _.
  assert (ingested [e] = []) as Hi.
  { destruct e; try reflexivity. destruct (He hit_file eq_refl). }
  unfold extends. rewrite Hi. unfold log. simpl.
  repeat split; try reflexivity; try constructor; try set_solver.
Qed.

Lemma extends_sleep_poll st answer :
  extends st (log (EvPoll answer) (log EvSleep st).2).2 [EvSleep; EvPoll answer] true.
Proof.
  apply (extends_trans st (log EvSleep st).2 _ [EvSleep] [EvPoll answer]);
    apply extends_log; discriminate.
Qed.

Lemma process_hits_extends found st r st' :
  process_hits w growing found st = (r, st') →
  ∃ fs, extends st st' (EvGlob found.*1 :: (EvAddHits <$> fs)) (is_ok r)
        ∧ fs `prefix_of` (fresh (seen_files st) found).*1.
Proof.
  intros (Hstat & (fs & Hpre & Htr & Hsub1 & Hsub2 & Hok) & Hdb)%process_hits_spec.
  exists fs. split; [|exact Hpre].
  unfold extends. change (ingested (EvGlob found.*1 :: (EvAddHits <$> fs)))
    with (ingested (EvAddHits <$> fs)). rewrite ingested_adds.
  split; [assumption|]. split; [assumption|].
  destruct Hpre as [rest Hrest].
  split.
  { pose proof (fresh_NoDup (seen_files st) found) as Hnd.
    rewrite Hrest in Hnd. apply NoDup_app in Hnd as [Hnd _]. exact Hnd. }
  split.
  { intros f Hf. apply (fresh_not_seen _ found). rewrite Hrest.
    apply elem_of_app. left. exact Hf. }
  split; [assumption|]. split; [assumption|].
  split.
  { intros Hr. apply Hok. destruct r as [[]|]; [reflexivity | discriminate]. }
  destruct (batches w growing (fresh (seen_files st) found)) as [hits|e].
  - destruct Hdb as [_ ->]. apply prefix_app_r. reflexivity.
  - destruct Hdb as [_ ->]. reflexivity.
Qed.

(** The loop scans, sleeps and polls until the poll finds the process
    ended; an error of the ingestion ends it before. *)
Lemma poll_loop_spec alive k st r st' :
  poll_loop w growing alive k st = (r, st') →
  ∃ tr,
    extends st st' tr (is_ok r)
    ∧ (if is_ok r
       then ∃ body, tr = body ++ [EvPoll (Some (returncode w))]
                    ∧ Forall polling body ∧ length (scans body) = S alive
       else Forall polling tr)
    ∧ match batches w growing
              (fresh (seen_files st) (concat (listing w <$> seq k (S alive)))) with
      | Ok hits => r = Ok () ∧ db st' = db st ++ hits
                   ∧ ingested tr =
                     (fresh (seen_files st) (concat (listing w <$> seq k (S alive)))).*1
      | Raise e => r = Raise e
      end.
Proof.
  revert k st. induction alive as [|alive IH]; intros k st.
  - cbn [poll_loop seq fmap list_fmap concat]. rewrite app_nil_r.
    unfold bind at 1.
    destruct (process_hits w growing (listing w k) st) as [r1 st1] eqn:Hp.
    pose proof (process_hits_extends _ _ _ _ Hp) as (fs & Hext & Hpre).
    apply process_hits_spec in Hp as (_ & (fs' & _ & Htr' & _ & _ & Hok') & Hdb).
    destruct (batches w growing (fresh (seen_files st) (listing w k))) as [hits|e].
    + destruct Hdb as [-> Hdb]. destruct (Hok' eq_refl) as [-> _].
      assert (fs = (fresh (seen_files st) (listing w k)).*1) as ->.
      { destruct Hext as (_ & Htr & _). rewrite Htr' in Htr.
        apply app_inv_head in Htr. injection Htr as Htr.
        apply (f_equal ingested) in Htr. rewrite !ingested_adds in Htr. congruence. }
      unfold bind, log. intros [= <- <-].
      eexists. split.
      { eapply extends_trans; [exact Hext|].
        exact (extends_sleep_poll st1 _). }
      simpl is_ok. cbv iota. split.
      { exists (EvGlob (listing w k).*1
                  :: (EvAddHits <$> (fresh (seen_files st) (listing w k)).*1)
                  ++ [EvSleep]). split.
        - simpl. rewrite <- app_assoc. reflexivity.
        - split.
          + constructor; [exact I|]. apply Forall_app. split; [apply polling_adds|].
            constructor; [exact I | constructor].
          + simpl. rewrite scans_app, scans_adds. reflexivity. }
      split; [reflexivity|]. split; [simpl; exact Hdb|].
      rewrite ingested_app. simpl. rewrite app_nil_r.
      change (ingested (EvGlob ?x :: ?l)) with (ingested l). apply ingested_adds.
    + destruct Hdb as [-> Hdb]. intros [= <- <-].
      exists (EvGlob (listing w k).*1 :: (EvAddHits <$> fs)).
      split; [exact Hext|]. split; [|reflexivity].
      simpl. constructor; [exact I | apply polling_adds].
  - cbn [poll_loop]. change (seq k (S (S alive))) with (k :: seq (S k) (S alive)).
    rewrite fmap_cons. cbn [concat].
    rewrite fresh_app, batches_app.
    unfold bind at 1.
    destruct (process_hits w growing (listing w k) st) as [r1 st1] eqn:Hp.
    pose proof (process_hits_extends _ _ _ _ Hp) as (fs & Hext & Hpre).
    apply process_hits_spec in Hp as (_ & (fs' & _ & Htr' & _ & _ & Hok') & Hdb).
    destruct (batches w growing (fresh (seen_files st) (listing w k))) as [hits|e];
      cbn [mbind result_bind].
    + destruct Hdb as [-> Hdb]. destruct (Hok' eq_refl) as [-> Hseen1].
      assert (fs = (fresh (seen_files st) (listing w k)).*1) as ->.
      { destruct Hext as (_ & Htr & _). rewrite Htr' in Htr.
        apply app_inv_head in Htr. injection Htr as Htr.
        apply (f_equal ingested) in Htr. rewrite !ingested_adds in Htr. congruence. }
      unfold bind at 1, log at 1. unfold bind at 1, log at 1.
      match goal with |- poll_loop _ _ _ _ ?s = _ → _ => set (st2 := s) end.
      intros Hrun. apply IH in Hrun as (tr & Hext2 & Hshape & Hdb2).
      assert (seen_files st2 = seen_files st1) as Hs2 by reflexivity.
      assert (db st2 = db st1) as Hd2 by reflexivity.
      assert (extends st st2 (EvGlob (listing w k).*1
                 :: (EvAddHits <$> (fresh (seen_files st) (listing w k)).*1)
                 ++ [EvSleep; EvPoll None]) true) as Hext1.
      { change (EvGlob ?x :: ?l ++ ?m) with ((EvGlob x :: l) ++ m).
        eapply extends_trans; [exact Hext|].
        exact (extends_sleep_poll st1 None). }
      rewrite Hs2, Hseen1 in Hdb2.
      eexists. split; [eapply extends_trans; [exact Hext1 | exact Hext2]|].
      split.
      { destruct (is_ok r).
        - destruct Hshape as (body & -> & Hpoll & Hlen).
          exists (EvGlob (listing w k).*1
                    :: (EvAddHits <$> (fresh (seen_files st) (listing w k)).*1)
                    ++ [EvSleep; EvPoll None] ++ body). split.
          + simpl. rewrite <- !app_assoc. reflexivity.
          + split.
            * constructor; [exact I|].
              apply Forall_app. split; [apply polling_adds|].
              constructor; [exact I|]. constructor; [exact I | exact Hpoll].
            * change (EvGlob ?x :: ?l) with ([EvGlob x] ++ l).
              rewrite !scans_app, scans_adds. simpl.
              rewrite Hlen. reflexivity.
        - apply Forall_app. split; [|exact Hshape].
          constructor; [exact I|].
          apply Forall_app. split; [apply polling_adds|].
          constructor; [exact I|]. constructor; [exact I | constructor]. }
      destruct (batches w growing _) as [more|e]; cbn [mbind result_bind].
      * destruct Hdb2 as (-> & Hdb2 & Hing). split; [reflexivity|].
        split; [rewrite Hdb2, Hd2, Hdb, <- app_assoc; reflexivity|].
        rewrite fmap_app, <- Hing.
        change (EvGlob ?x :: ?l ++ ?m) with ((EvGlob x :: l) ++ m).
        rewrite !ingested_app. simpl. rewrite app_nil_r.
        change (ingested (EvGlob ?x :: ?l)) with (ingested l).
        rewrite ingested_adds. reflexivity.
      * exact Hdb2.
    + destruct Hdb as [-> Hdb]. intros [= <- <-].
      exists (EvGlob (listing w k).*1 :: (EvAddHits <$> fs)).
      split; [exact Hext|]. split; [|reflexivity].
      simpl. constructor; [exact I | apply polling_adds].
Qed.

Lemma all_found_split :
  all_found w =
  concat (listing w <$> seq 0 (S (polls_alive w))) ++ listing w (S (polls_alive w)).
Proof.
  unfold all_found. replace (polls_alive w + 2) with (S (S (polls_alive w))) by lia.
  rewrite (seq_S (S (polls_alive w))), fmap_app, concat_app. simpl.
  rewrite app_nil_r. reflexivity.
Qed.

(** The whole of [grow]: the process is started, the loop polls until the
    process has ended, one more scan follows, and only then the exit code
    is looked at.  Across all scans every new file is ingested once. *)
Lemma grow_spec st r st' :
  grow w growing st = (r, st') →
  status st' = status st
  ∧ db st `prefix_of` db st'
  ∧ ∃ loop tail,
      trace st' = trace st ++ EvPopen (grow_args w growing) :: loop ++ tail
      ∧ Forall polling loop
      ∧ NoDup (ingested (loop ++ tail))
      ∧ seen_files st' ⊆ list_to_set (ingested (loop ++ tail))
      ∧ (tail = [] ∧ is_ok r = false
         ∨ ∃ fs t,
             tail = EvPoll (Some (returncode w))
                      :: EvGlob (listing w (S (polls_alive w))).*1
                      :: (EvAddHits <$> fs) ++ t
             ∧ length (scans loop) = S (polls_alive w)
             ∧ (t = [] ∧ is_ok r = false ∨ t = [EvReturncode (returncode w)]))
      ∧ match batches w growing (fresh ∅ (all_found w)) with
        | Ok hits =>
            r = (if decide (returncode w > 0)%Z
                 then Raise (CalledProcessError (returncode w) (grow_args w growing)
                               communicate.1 communicate.2)
                 else Ok ())
            ∧ db st' = db st ++ hits
            ∧ ingested (loop ++ tail) = (fresh ∅ (all_found w)).*1
            ∧ seen_files st' = list_to_set (fresh ∅ (all_found w)).*1
        | Raise e => r = Raise e
        end.
Proof.
  unfold grow. unfold bind at 1, log at 1. unfold bind at 1, seen_reset.
  unfold bind at 1.
  match goal with |- context [poll_loop _ _ _ _ ?s] => set (st0 := s) end.
  assert (seen_files st0 = ∅) as Hseen0 by reflexivity.
  assert (db st0 = db st) as Hdb0 by reflexivity.
  assert (status st0 = status st) as Hstat0 by reflexivity.
  assert (trace st0 = trace st ++ [EvPopen (grow_args w growing)]) as Htr0 by reflexivity.
  clearbody st0.
  rewrite all_found_split, fresh_app, batches_app.
  destruct (poll_loop w growing (polls_alive w) 0 st0) as [r1 st1] eqn:Hloop.
  apply poll_loop_spec in Hloop as (tr1 & Hext1 & Hshape & Hb1).
  rewrite Hseen0 in Hb1.
  set (found1 := concat (listing w <$> seq 0 (S (polls_alive w)))) in *.
  destruct (batches w growing (fresh ∅ found1)) as [hits1|e1]; cbn [mbind result_bind].
  - (* the loop ended with the process *)
    destruct Hb1 as (-> & Hd1 & Hing1). simpl in Hshape.
    destruct Hshape as (body & -> & Hbody & Hscans).
    pose proof Hext1 as (_ & _ & _ & _ & _ & _ & Hs1 & _).
    specialize (Hs1 eq_refl). rewrite Hseen0, Hing1 in Hs1.
    unfold bind at 1.
    destruct (process_hits w growing (listing w (S (polls_alive w))) st1)
      as [r2 st2] eqn:Hdrain.
    pose proof (process_hits_extends _ _ _ _ Hdrain) as (fs & Hext2 & _).
    apply process_hits_spec in Hdrain as (_ & (fs' & _ & Htr' & _ & _ & Hok') & Hb2).
    assert (fs' = fs) as ->.
    { destruct Hext2 as (_ & Htr & _). rewrite Htr' in Htr.
      apply app_inv_head in Htr. injection Htr as Htr.
      apply (f_equal ingested) in Htr. rewrite !ingested_adds in Htr. exact Htr. }
    rewrite Hs1 in Hb2, Hok'.
    set (found2 := fresh (∅ ∪ list_to_set (fresh ∅ found1).*1)
                     (listing w (S (polls_alive w)))) in *.
    pose proof (extends_trans _ _ _ _ _ _ Hext1 Hext2) as Hext.
    destruct (batches w growing found2) as [hits2|e2]; cbn [mbind result_bind].
    + (* the drain went through: the exit code decides *)
      destruct Hb2 as (-> & Hd2). destruct (Hok' eq_refl) as [-> Hs2].
      unfold bind at 1, log at 1.
      match goal with |- (if _ then _ else _) ?s = _ → _ => set (st3 := s) end.
      assert (extends st0 st3
                (((body ++ [EvPoll (Some (returncode w))])
                  ++ EvGlob (listing w (S (polls_alive w))).*1
                     :: (EvAddHits <$> found2.*1))
                 ++ [EvReturncode (returncode w)]) true) as Hext3.
      { eapply extends_trans; [exact Hext|].
        apply (extends_log (EvReturncode (returncode w))); discriminate. }
      intros Hres.
      assert (st' = st3 ∧
              r = (if decide (returncode w > 0)%Z
                   then Raise (CalledProcessError (returncode w) (grow_args w growing)
                                 communicate.1 communicate.2)
                   else Ok ())) as [-> ->].
      { destruct (decide (returncode w > 0)%Z); injection Hres as <- <-; split; reflexivity. }
      clear Hres.
      destruct Hext3 as (Hst & Htr & Hnd & _ & _ & Hsub & Hseen & Hpre).
      specialize (Hseen eq_refl). rewrite Hseen0 in Hsub, Hseen.
      assert (∀ tl, ((body ++ [EvPoll (Some (returncode w))])
                  ++ EvGlob (listing w (S (polls_alive w))).*1
                     :: (EvAddHits <$> found2.*1)) ++ tl
              = body ++ EvPoll (Some (returncode w))
                  :: EvGlob (listing w (S (polls_alive w))).*1
                  :: (EvAddHits <$> found2.*1) ++ tl) as Hshape.
      { intros tl. rewrite <- !app_assoc. reflexivity. }
      rewrite Hshape in *.
      split; [congruence|]. split; [rewrite <- Hdb0; exact Hpre|].
      exists body. eexists. split; [rewrite Htr, Htr0, <- app_assoc; reflexivity|].
      split; [exact Hbody|]. split; [exact Hnd|].
      split; [set_solver|].
      split.
      { right. exists found2.*1, [EvReturncode (returncode w)].
        split; [reflexivity|]. split; [exact Hscans|]. right. reflexivity. }
      split; [reflexivity|].
      split; [simpl; rewrite Hd2, Hd1, Hdb0, <- app_assoc; reflexivity|].
      assert (ingested (body ++ EvPoll (Some (returncode w))
                  :: EvGlob (listing w (S (polls_alive w))).*1
                  :: (EvAddHits <$> found2.*1) ++ [EvReturncode (returncode w)])
              = (fresh ∅ found1 ++ found2).*1) as Hing.
      { rewrite <- Hshape, ingested_app, ingested_app, Hing1. simpl. rewrite app_nil_r.
        change (ingested (EvGlob ?x :: ?l)) with (ingested l).
        rewrite ingested_adds, fmap_app. reflexivity. }
      split; [exact Hing|]. rewrite Hseen, Hing. set_solver.
    + (* the drain raised *)
      destruct Hb2 as (-> & Hd2). intros [= <- <-].
      destruct Hext as (Hst & Htr & Hnd & _ & _ & Hsub & _ & Hpre).
      rewrite Hseen0 in Hsub. simpl is_ok in *.
      assert ((body ++ [EvPoll (Some (returncode w))])
                  ++ EvGlob (listing w (S (polls_alive w))).*1 :: (EvAddHits <$> fs)
              = body ++ EvPoll (Some (returncode w))
                  :: EvGlob (listing w (S (polls_alive w))).*1
                  :: (EvAddHits <$> fs) ++ []) as Hshape.
      { rewrite <- !app_assoc, app_nil_r. reflexivity. }
      rewrite Hshape in *.
      split; [congruence|]. split; [rewrite <- Hdb0; exact Hpre|].
      exists body. eexists. split; [rewrite Htr, Htr0, <- app_assoc; reflexivity|].
      split; [exact Hbody|]. split; [exact Hnd|].
      split; [set_solver|].
      split; [|reflexivity].
      right. exists fs, []. split; [reflexivity|]. split; [exact Hscans|].
      left. split; reflexivity.
  - (* the ingestion raised inside the loop *)
    subst r1. intros [= <- <-]. simpl in Hshape.
    destruct Hext1 as (Hst & Htr & Hnd & _ & _ & Hsub & _ & Hpre).
    rewrite Hseen0 in Hsub.
    split; [congruence|]. split; [rewrite <- Hdb0; exact Hpre|].
    exists tr1, []. rewrite app_nil_r.
    split; [rewrite Htr, Htr0, <- app_assoc; reflexivity|].
    split; [exact Hshape|]. split; [exact Hnd|].
    split; [set_solver|].
    split; [|reflexivity]. left. split; reflexivity.
Qed.

End Run.

(** * The run, scan by scan *)

Section Drain.

Context (w : World) (growing : Growing).

(** [grow], step by step. *)
Lemma grow_unfold st :
  grow w growing st =
  match poll_loop w growing (polls_alive w) 0
          (seen_reset (log (EvPopen (grow_args w growing)) st).2).2 with
  | (Raise e, st1) => (Raise e, st1)
  | (Ok _, st1) =>
      match process_hits w growing (listing w (S (polls_alive w))) st1 with
      | (Raise e, st2) => (Raise e, st2)
      | (Ok _, st2) =>
          (if decide (returncode w > 0)%Z
           then Raise (CalledProcessError (returncode w) (grow_args w growing)
                         None None)
           else Ok (),
           (log (EvReturncode (returncode w)) st2).2)
      end
  end.
Proof.
  unfold grow. unfold bind at 1, log at 1. unfold bind at 1, seen_reset.
  unfold bind at 1. simpl.
  destruct (poll_loop w growing (polls_alive w) 0 _) as [[[]|e] st1]; [|reflexivity].
  unfold bind at 1.
  destruct (process_hits w growing _ st1) as [[[]|e] st2]; [|reflexivity].
  unfold bind, log, raise, ret. simpl.
  destruct (decide (returncode w > 0)%Z); reflexivity.
Qed.

(** The polling phase when its ingestions meet no error: it ends with the
    poll that finds the process ended, has made one scan per poll, and has
    ingested and stored every new file of these scans. *)
Lemma grow_loop_ok st hits :
  batches w growing (fresh ∅ (found_before w (S (polls_alive w)))) = Ok hits →
  ∃ st1 loop,
    poll_loop w growing (polls_alive w) 0
      (seen_reset (log (EvPopen (grow_args w growing)) st).2).2 = (Ok (), st1)
    ∧ trace st1 = trace st ++ EvPopen (grow_args w growing)
                             :: loop ++ [EvPoll (Some (returncode w))]
    ∧ Forall polling loop
    ∧ length (scans loop) = S (polls_alive w)
    ∧ ingested loop = (fresh ∅ (found_before w (S (polls_alive w)))).*1
    ∧ db st1 = db st ++ hits
    ∧ seen_files st1 = list_to_set (fresh ∅ (found_before w (S (polls_alive w)))).*1
    ∧ status st1 = status st.
Proof.
  intros Hbatch. unfold found_before in *.
  set (st0 := (seen_reset (log (EvPopen (grow_args w growing)) st).2).2).
  assert (seen_files st0 = ∅) as Hseen0 by reflexivity.
  assert (db st0 = db st) as Hdb0 by reflexivity.
  assert (status st0 = status st) as Hstat0 by reflexivity.
  assert (trace st0 = trace st ++ [EvPopen (grow_args w growing)]) as Htr0
    by reflexivity.
  clearbody st0.
  destruct (poll_loop w growing (polls_alive w) 0 st0) as [r1 st1] eqn:Hloop.
  apply poll_loop_spec in Hloop as (tr1 & Hext1 & Hshape & Hb1).
  rewrite Hseen0, Hbatch in Hb1. destruct Hb1 as (-> & Hd1 & Hing1).
  simpl in Hshape. destruct Hshape as (body & -> & Hbody & Hscans).
  destruct Hext1 as (Hstat1 & Htr1 & _ & _ & _ & _ & Hs1 & _).
  specialize (Hs1 eq_refl). rewrite Hseen0, Hing1 in Hs1.
  assert (ingested body = (fresh ∅ (concat (listing w <$> seq 0 (S (polls_alive w))))).*1)
    as Hing.
  { rewrite <- Hing1, ingested_app. simpl. rewrite app_nil_r. reflexivity. }
  exists st1, body. split; [reflexivity|].
  split; [rewrite Htr1, Htr0, <- app_assoc; reflexivity|].
  split; [exact Hbody|]. split; [exact Hscans|]. split; [exact Hing|].
  split; [rewrite Hd1, Hdb0; reflexivity|].
  split; [rewrite Hs1; set_solver | congruence].
Qed.

(** The polling phase when the [j]-th of its scans, counted from the one it
    starts with, is the first whose ingestion raises: the loop ends there
    with that error, and the rows of the scans before stay. *)
Lemma poll_loop_raise_at j alive k st hits e :
  j ≤ alive →
  batches w growing (fresh (seen_files st) (concat (listing w <$> seq k j))) = Ok hits →
  batches w growing
    (fresh (seen_files st
            ∪ list_to_set (fresh (seen_files st) (concat (listing w <$> seq k j))).*1)
       (listing w (k + j))) = Raise e →
  ∃ st' tr,
    poll_loop w growing alive k st = (Raise e, st')
    ∧ db st' = db st ++ hits
    ∧ trace st' = trace st ++ tr
    ∧ Forall polling tr.
Proof.
  revert alive k st hits. induction j as [|j IH]; intros alive k st hits Hj Hok Hraise.
  - simpl in Hok. injection Hok as <-.
    simpl in Hraise. rewrite (right_id_L ∅ (∪)), Nat.add_0_r in Hraise.
    assert (∃ st' tr, process_hits w growing (listing w k) st = (Raise e, st')
                      ∧ db st' = db st ++ [] ∧ trace st' = trace st ++ tr
                      ∧ Forall polling tr) as (st' & tr & Hp & Hrest).
    { destruct (process_hits w growing (listing w k) st) as [r st'] eqn:Hp.
      apply process_hits_spec in Hp as (_ & (fs & _ & Htr & _) & Hb).
      rewrite Hraise in Hb. destruct Hb as [-> Hdb].
      exists st', (EvGlob (listing w k).*1 :: (EvAddHits <$> fs)).
      split; [reflexivity|]. split; [rewrite app_nil_r; exact Hdb|].
      split; [exact Htr|]. constructor; [exact I | apply polling_adds]. }
    exists st', tr. split; [|exact Hrest].
    destruct alive; cbn [poll_loop]; unfold bind at 1; rewrite Hp; reflexivity.
  - destruct alive as [|alive]; [lia|].
    change (seq k (S j)) with (k :: seq (S k) j) in *.
    rewrite fmap_cons in *. cbn [concat] in *.
    rewrite fresh_app in Hok, Hraise. rewrite batches_app in Hok.
    rewrite fmap_app, list_to_set_app_L, (assoc_L (∪)) in Hraise.
    replace (k + S j) with (S k + j) in Hraise by lia.
    destruct (batches w growing (fresh (seen_files st) (listing w k)))
      as [hits1|] eqn:Hb1; [|discriminate].
    cbn [mbind result_bind] in Hok.
    destruct (batches w growing _) as [more|] eqn:Hb2 in Hok; [|discriminate].
    cbn [mbind result_bind] in Hok. injection Hok as <-.
    cbn [poll_loop]. unfold bind at 1.
    destruct (process_hits w growing (listing w k) st) as [r1 st1] eqn:Hp.
    apply process_hits_spec in Hp as (_ & (fs & _ & Htr1 & _ & _ & Hok1) & Hb).
    rewrite Hb1 in Hb. destruct Hb as [-> Hdb1].
    destruct (Hok1 eq_refl) as [-> Hseen1].
    unfold bind at 1, log at 1. unfold bind at 1, log at 1.
    match goal with |- context [poll_loop _ _ _ _ ?s] => set (st2 := s) end.
    assert (seen_files st2 = seen_files st1) as Hs2 by reflexivity.
    assert (db st2 = db st1) as Hd2 by reflexivity.
    assert (trace st2 = trace st1 ++ [EvSleep; EvPoll None]) as Ht2.
    { simpl. rewrite <- app_assoc. reflexivity. }
    clearbody st2.
    rewrite <- Hseen1, <- Hs2 in Hb2, Hraise.
    destruct (IH alive (S k) st2 more ltac:(lia) Hb2 Hraise)
      as (st' & tr & Hloop & Hdb & Htr & Hpoll).
    exists st', (EvGlob (listing w k).*1
                   :: (EvAddHits <$> (fresh (seen_files st) (listing w k)).*1)
                   ++ [EvSleep; EvPoll None] ++ tr).
    split; [exact Hloop|].
    split; [rewrite Hdb, Hd2, Hdb1, <- app_assoc; reflexivity|].
    split.
    + rewrite Htr, Ht2, Htr1. rewrite <- !app_assoc. reflexivity.
    + constructor; [exact I|]. apply Forall_app. split; [apply polling_adds|].
      constructor; [exact I|]. constructor; [exact I | exact Hpoll].
Qed.

(** A run in which the [k]-th scan is the first whose ingestion raises:
    [grow] ends with that error, the rows of the scans before it stay, the
    failing scan leaves none, and the exit code is not read. *)
Lemma grow_raise_at st k hits e :
  k ≤ S (polls_alive w) →
  batches w growing (fresh ∅ (found_before w k)) = Ok hits →
  batches w growing
    (fresh (list_to_set (fresh ∅ (found_before w k)).*1) (listing w k)) = Raise e →
  (grow w growing st).1 = Raise e
  ∧ db (grow w growing st).2 = db st ++ hits
  ∧ ∃ tr, trace (grow w growing st).2 = trace st ++ EvPopen (grow_args w growing) :: tr
          ∧ Forall (λ ev, ∀ rc, ev ≠ EvReturncode rc) tr.
Proof.
  assert (∀ tr, Forall polling tr → Forall (λ ev, ∀ rc, ev ≠ EvReturncode rc) tr)
    as Hpolling.
  { intros tr Htr. eapply Forall_impl; [exact Htr|]. intros ev Hev rc ->. exact Hev. }
  intros Hk Hok Hraise. rewrite grow_unfold.
  destruct (decide (k ≤ polls_alive w)) as [Hin|Hout].
  - set (st0 := (seen_reset (log (EvPopen (grow_args w growing)) st).2).2).
    destruct (poll_loop_raise_at k (polls_alive w) 0 st0 hits e Hin)
      as (st' & tr & Hloop & Hdb & Htr & Hpoll).
    { exact Hok. }
    { simpl. rewrite (left_id_L ∅ (∪)). exact Hraise. }
    rewrite Hloop. simpl. split; [reflexivity|]. split; [exact Hdb|].
    exists tr. split; [|apply Hpolling, Hpoll].
    rewrite Htr. simpl. rewrite <- app_assoc. reflexivity.
  - assert (k = S (polls_alive w)) as -> by lia.
    destruct (grow_loop_ok st hits Hok)
      as (st1 & loop & Hloop & Htr1 & Hpoll & _ & _ & Hdb1 & Hseen1 & _).
    rewrite Hloop.
    destruct (process_hits w growing (listing w (S (polls_alive w))) st1)
      as [r2 st2] eqn:Hdrain.
    apply process_hits_spec in Hdrain as (_ & (fs & _ & Htr2 & _) & Hb).
    rewrite Hseen1, Hraise in Hb. destruct Hb as [-> Hdb2].
    simpl. split; [reflexivity|]. split; [rewrite Hdb2; exact Hdb1|].
    exists (loop ++ EvPoll (Some (returncode w))
              :: EvGlob (listing w (S (polls_alive w))).*1 :: (EvAddHits <$> fs)).
    split.
    + rewrite Htr2, Htr1. rewrite <- app_assoc. simpl. rewrite <- app_assoc.
      reflexivity.
    + apply Forall_app. split; [apply Hpolling, Hpoll|].
      constructor; [discriminate|]. constructor; [discriminate|].
      apply Hpolling, polling_adds.
Qed.

End Drain.

(** * The run and its outcome *)

Lemma grow_task_spec w growing st :
  (grow_task w growing st).1 = (grow w growing st).1
  ∧ seen_files (grow_task w growing st).2 = seen_files (grow w growing st).2
  ∧ db (grow_task w growing st).2 = db (grow w growing st).2
  ∧ status (grow_task w growing st).2
    = (if is_ok (grow w growing st).1 then SUCCESS else FAILURE)
  ∧ trace (grow_task w growing st).2
    = trace (grow w growing st).2
      ++ [EvSaveStatus (if is_ok (grow w growing st).1 then SUCCESS else FAILURE)].
Proof.
  unfold grow_task. destruct (grow w growing st) as [[[]|e] st1]; simpl;
    repeat split; reflexivity.
Qed.

(** When the ingestion meets no error, the exit code alone decides how
    [grow] ends: it raises for a code above zero and returns otherwise. *)
Lemma grow_outcome w growing st hits :
  batches w growing (fresh ∅ (all_found w)) = Ok hits →
  (grow w growing st).1 =
    (if decide (returncode w > 0)%Z
     then Raise (CalledProcessError (returncode w) (grow_args w growing)
                   communicate.1 communicate.2)
     else Ok ())
  ∧ db (grow w growing st).2 = db st ++ hits.
Proof.
  intros Hb. destruct (grow w growing st) as [r st'] eqn:Hg.
  apply grow_spec in Hg as (_ & _ & loop & tail & _ & _ & _ & _ & _ & Hres).
  rewrite Hb in Hres. destruct Hres as (-> & Hdb & _). split; [reflexivity | exact Hdb].
Qed.

(** Every exit code that is not positive ends the task in SUCCESS, the
    negative codes of a process ended by a signal as well as zero. *)
Lemma grow_task_not_positive w growing st hits :
  batches w growing (fresh ∅ (all_found w)) = Ok hits →
  (returncode w ≤ 0)%Z →
  (grow_task w growing st).1 = Ok () ∧ status (grow_task w growing st).2 = SUCCESS.
Proof.
  intros Hb Hrc. destruct (grow_task_spec w growing st) as (-> & _ & _ & -> & _).
  destruct (grow_outcome w growing st hits Hb) as [-> _].
  rewrite decide_False by lia. split; reflexivity.
Qed.

(** A positive exit code ends it in FAILURE with the error that carries the
    code. *)
Lemma grow_task_positive w growing st hits :
  batches w growing (fresh ∅ (all_found w)) = Ok hits →
  (returncode w > 0)%Z →
  (grow_task w growing st).1
    = Raise (CalledProcessError (returncode w) (grow_args w growing) None None)
  ∧ status (grow_task w growing st).2 = FAILURE.
Proof.
  intros Hb Hrc. destruct (grow_task_spec w growing st) as (-> & _ & _ & -> & _).
  destruct (grow_outcome w growing st hits Hb) as [-> _].
  rewrite decide_True by lia. split; reflexivity.
Qed.

(** C1: the external process is killed by signal 9, so [process.returncode]
    is -9, and no result file was written.  [grow] does not raise and the task
    stores SUCCESS, where the exit code is not zero and the run should end in
    an [ExecutionError] and FAILURE: [returncode > 0] misses negative codes. *)
Theorem grow_task_signal_exit_reports_success :
  let w := sample_world (λ _, []) 0 (-9) in
  let run := grow_task w (sample_growing ["4agn"%string]) pending in
  run.1 = Ok ()
  ∧ status run.2 = SUCCESS
  ∧ EvPoll (Some (-9)%Z) ∈ trace run.2
  ∧ EvReturncode (-9) ∈ trace run.2.
Proof.
  cbv zeta.
  split; [vm_compute; reflexivity|]. split; [vm_compute; reflexivity|].
  split; apply (bool_decide_unpack _); vm_compute; exact I.
Qed.

(** * C2 *)

(** C2 (as amended): one transaction covers everything a call of
    [process_hits] ingests.  When every record of every new file of the scan
    parses, casts and is stored, the rows of all these files are appended
    together; when any of them fails, the call raises that error and the
    table is what it was before the call: no row of the failing file is
    visible, none of the files ingested before it in the same call either,
    and the rows committed by earlier calls stay. *)
Theorem process_hits_atomic w growing found st :
  match batches w growing (fresh (seen_files st) found) with
  | Ok hits =>
      (process_hits w growing found st).1 = Ok ()
      ∧ db (process_hits w growing found st).2 = db st ++ hits
  | Raise e =>
      (process_hits w growing found st).1 = Raise e
      ∧ db (process_hits w growing found st).2 = db st
  end.
Proof.
  destruct (process_hits w growing found st) as [r st'] eqn:Hp.
  apply process_hits_spec in Hp as (_ & _ & Hdb). exact Hdb.
Qed.

(** C2, the claim as worded fails: [a.sdf] holds one good record, [b.sdf] one
    whose score is [n/a], and one scan finds both.  [a.sdf] is ingested and
    marked seen, then [b.sdf] fails and the rows of [a.sdf] are rolled back
    with it. *)
Lemma process_hits_rolls_back_earlier_file : ¬ atomic_per_file.
Proof.
  intros H.
  pose (w := sample_world (λ _, []) 0 0).
  pose (g := sample_growing ["4agn"%string]).
  pose (found := [("a.sdf"%string, hit_a); ("b.sdf"%string, hit_bad)]).
  destruct (file_hits w g (mol_strings hit_a)) as [hits|] eqn:Hhits; [|discriminate].
  assert (∃ hit, hits = [hit]) as [hit ->].
  { vm_compute in Hhits. injection Hhits as <-. eexists. reflexivity. }
  specialize (H w g found pending "a.sdf"%string hit_a [hit]).
  assert (db (process_hits w g found pending).2 = []) as Hdb by (vm_compute; reflexivity).
  rewrite Hdb in H.
  eapply elem_of_nil, H.
  - apply elem_of_cons. left. reflexivity.
  - apply not_elem_of_empty.
  - apply (bool_decide_unpack _). vm_compute. exact I.
  - exact Hhits.
  - apply elem_of_cons. left. reflexivity.
Qed.

(** * C3 *)

(** C3: once a poll has found the process ended, [grow] makes exactly one
    more pass over the results directory, a full one, and looks at the exit
    code only after it.  When the ingestions of the polling phase meet no
    error, the trace of the run is the polling phase (one scan per poll, its
    new files ingested), the poll that reports the exit, then one scan of the
    directory with the ingestion of every file of that scan that was not
    ingested before, and only then the reading of the exit code, which decides
    the outcome; the rows of these files are added to the table after those
    of the polling phase, and the files join the seen set.  When the pass
    itself raises, it is still the only scan after the exit, its rows are
    rolled back and the exit code is not read.  When an ingestion of the
    polling phase raises, the run ends there, before any such pass. *)
Theorem grow_drains_once w growing st :
  let r := (grow w growing st).1 in
  let st' := (grow w growing st).2 in
  let polled := fresh ∅ (found_before w (S (polls_alive w))) in
  let drained := fresh (list_to_set polled.*1) (listing w (S (polls_alive w))) in
  match batches w growing polled with
  | Ok hits1 =>
      ∃ loop,
        Forall polling loop
        ∧ length (scans loop) = S (polls_alive w)
        ∧ ingested loop = polled.*1
        ∧ match batches w growing drained with
          | Ok hits2 =>
              trace st' = trace st ++ EvPopen (grow_args w growing) :: loop
                            ++ EvPoll (Some (returncode w))
                               :: EvGlob (listing w (S (polls_alive w))).*1
                               :: (EvAddHits <$> drained.*1)
                               ++ [EvReturncode (returncode w)]
              ∧ db st' = db st ++ hits1 ++ hits2
              ∧ seen_files st' = list_to_set polled.*1 ∪ list_to_set drained.*1
              ∧ r = (if decide (returncode w > 0)%Z
                     then Raise (CalledProcessError (returncode w) (grow_args w growing)
                                   None None)
                     else Ok ())
          | Raise e =>
              r = Raise e
              ∧ db st' = db st ++ hits1
              ∧ ∃ fs, fs `prefix_of` drained.*1
                      ∧ trace st' = trace st ++ EvPopen (grow_args w growing) :: loop
                                      ++ EvPoll (Some (returncode w))
                                         :: EvGlob (listing w (S (polls_alive w))).*1
                                         :: (EvAddHits <$> fs)
          end
  | Raise e =>
      r = Raise e
      ∧ ∃ loop, trace st' = trace st ++ EvPopen (grow_args w growing) :: loop
                ∧ Forall polling loop
  end.
Proof.
  cbv zeta. rewrite grow_unfold.
  destruct (batches w growing (fresh ∅ (found_before w (S (polls_alive w)))))
    as [hits1|e] eqn:Hb1.
  - destruct (grow_loop_ok w growing st hits1 Hb1)
      as (st1 & loop & Hloop & Htr1 & Hpoll & Hscans & Hing & Hdb1 & Hseen1 & _).
    rewrite Hloop. exists loop.
    split; [exact Hpoll|]. split; [exact Hscans|]. split; [exact Hing|].
    destruct (process_hits w growing (listing w (S (polls_alive w))) st1)
      as [r2 st2] eqn:Hdrain.
    apply process_hits_spec in Hdrain as (_ & (fs & Hpre & Htr2 & _ & _ & Hok2) & Hb).
    rewrite Hseen1 in Hpre, Hok2, Hb.
    destruct (batches w growing
                (fresh (list_to_set (fresh ∅ (found_before w (S (polls_alive w)))).*1)
                   (listing w (S (polls_alive w))))) as [hits2|e] eqn:Hb2.
    + destruct Hb as [-> Hdb2]. destruct (Hok2 eq_refl) as [-> Hseen2]. simpl.
      split.
      { rewrite Htr2, Htr1. rewrite <- !app_assoc. simpl. rewrite <- !app_assoc.
        reflexivity. }
      split; [rewrite Hdb2, Hdb1, <- app_assoc; reflexivity|].
      split; [exact Hseen2 | reflexivity].
    + destruct Hb as [-> Hdb2]. simpl.
      split; [reflexivity|]. split; [rewrite Hdb2; exact Hdb1|].
      exists fs. split; [exact Hpre|].
      rewrite Htr2, Htr1. rewrite <- app_assoc. simpl. rewrite <- app_assoc.
      reflexivity.
  - unfold found_before in Hb1.
    set (st0 := (seen_reset (log (EvPopen (grow_args w growing)) st).2).2).
    assert (seen_files st0 = ∅) as Hseen0 by reflexivity.
    assert (trace st0 = trace st ++ [EvPopen (grow_args w growing)]) as Htr0
      by reflexivity.
    clearbody st0.
    destruct (poll_loop w growing (polls_alive w) 0 st0) as [r1 st1] eqn:Hloop.
    apply poll_loop_spec in Hloop as (tr1 & Hext1 & Hshape & Hr1).
    rewrite Hseen0, Hb1 in Hr1. subst r1. simpl in Hshape.
    destruct Hext1 as (_ & Htr1 & _). simpl.
    split; [reflexivity|]. exists tr1. split; [|exact Hshape].
    rewrite Htr1, Htr0, <- app_assoc. reflexivity.
Qed.

(** * C4 *)



(** * C5 *)

Lemma polling_not_status e : polling e → ∀ s, e ≠ EvSaveStatus s.
Proof. destruct e; simpl; try contradiction; discriminate. Qed.

(** C5 (as amended): the task writes the status once, after [grow] has
    returned or raised: SUCCESS when it returned, FAILURE when it raised.
    Nothing writes it before or during polling, so the status goes from its
    initial value straight to SUCCESS or FAILURE and is never RUNNING. *)
Theorem grow_task_status w growing st :
  let r := (grow_task w growing st).1 in
  let st' := (grow_task w growing st).2 in
  ∃ body s,
    trace st' = trace st ++ body ++ [EvSaveStatus s]
    ∧ Forall (λ e, ∀ s', e ≠ EvSaveStatus s') body
    ∧ status (grow w growing st).2 = status st
    ∧ status st' = s
    ∧ s = (if is_ok r then SUCCESS else FAILURE)
    ∧ s ≠ RUNNING.
Proof.
  cbv zeta. destruct (grow_task_spec w growing st) as (Hr & _ & _ & Hstat & Htr).
  rewrite Hr, Htr, Hstat.
  destruct (grow w growing st) as [r st1] eqn:Hg. simpl.
  apply grow_spec in Hg as (Hst1 & _ & loop & tail & Htr1 & Hloop & _ & _ & Hshape & _).
  exists (EvPopen (grow_args w growing) :: loop ++ tail),
         (if is_ok r then SUCCESS else FAILURE).
  split; [rewrite Htr1, <- app_assoc; reflexivity|].
  split.
  { constructor; [discriminate|]. apply Forall_app. split.
    - eapply Forall_impl; [exact Hloop|]. apply polling_not_status.
    - destruct Hshape as [[-> _]|(fs & t & -> & _ & Ht)]; [constructor|].
      constructor; [discriminate|]. constructor; [discriminate|].
      apply Forall_app. split.
      + eapply Forall_impl; [apply polling_adds|]. apply polling_not_status.
      + destruct Ht as [[-> _]| ->]; [constructor|].
        constructor; [discriminate | constructor]. }
  split; [exact Hst1|]. split; [reflexivity|]. split; [reflexivity|].
  destruct (is_ok r); discriminate.
Qed.

(** C5, the claim as worded fails: the process ends at once with exit code 0
    and no result file; the trace of the task never writes [RUNNING], before
    the first scan or later. *)
Lemma grow_task_never_running :
  ¬ running_before_polling
      (trace (grow_task (sample_world (λ _, []) 0 0)
                (sample_growing ["4agn"%string]) pending).2).
Proof.
  intros (before & after & Htr & _).
  assert (EvSaveStatus RUNNING
          ∈ trace (grow_task (sample_world (λ _, []) 0 0)
                     (sample_growing ["4agn"%string]) pending).2) as Hin.
  { rewrite Htr. apply elem_of_app. right. apply elem_of_cons. left. reflexivity. }
  revert Hin. apply (bool_decide_unpack _). vm_compute. exact I.
Qed.

(** * Rows and records *)

Section Rows.

Context (w : World) (growing : Growing).

Lemma file_hits_rows mols hits :
  file_hits w growing mols = Ok hits →
  Forall2 (λ record hit, make_hit growing record = Ok hit) mols hits.
Proof.
  revert hits. induction mols as [|m rest IH]; intros hits; simpl.
  - intros [= <-]. constructor.
  - destruct (make_hit growing m) as [hit|] eqn:Hm; [|discriminate].
    cbn [mbind result_bind]. destruct (db_accepts w hit); [|discriminate].
    destruct (file_hits w growing rest) as [more|]; [|discriminate].
    cbn [mbind result_bind]. intros [= <-]. constructor; [exact Hm | apply IH; reflexivity].
Qed.



(** What [add_hits] stores when it ends well: one row per record of the
    file, in order, each built from its record. *)
Lemma add_hits_rows f data st :
  (add_hits w growing f data st).1 = Ok () →
  ∃ hits, db (add_hits w growing f data st).2 = db st ++ hits
          ∧ Forall2 (λ record hit, make_hit growing record = Ok hit)
              (mol_strings data) hits.
Proof.
  destruct (add_hits w growing f data st) as [r st'] eqn:Ha. simpl. intros ->.
  apply add_hits_spec in Ha as (_ & _ & _ & Hdb).
  destruct (file_hits w growing (mol_strings data)) as [hits|] eqn:Hh; [|discriminate].
  exists hits. split; [apply Hdb|]. apply file_hits_rows. exact Hh.
Qed.

End Rows.





(** * C6 *)







(** * C7 *)




(** * C9 *)

Lemma make_hit_name growing record hit :
  make_hit growing record = Ok hit →
  hit_name hit = take 254 (Py.strip (first_line record))
  ∧ length (hit_name hit) ≤ 254
  ∧ (254 < length (Py.strip (first_line record)) → length (hit_name hit) = 254)
  ∧ hit_file_string hit = record.
Proof.
  intros (Hname & Hfile & _)%make_hit_fields.
  rewrite get_mol_string_name_eq in Hname. rewrite Hname, length_take.
  repeat split; [lia | lia | exact Hfile].
Qed.

(** C9 (as amended): the extracted name is the first line of the record
    without the whitespace around it (a blank prefix and a blank suffix are
    cut, and what is left neither starts nor ends with whitespace); the name
    of every row [add_hits] stores is that trimmed text cut to its first 254
    characters, so it has at most 254 characters, and exactly 254 when the
    trimmed first line has more. *)
Theorem hit_name_truncated w growing f data st :
  (∀ record,
      get_mol_string_name record = Py.strip (first_line record)
      ∧ ∃ l r, first_line record = l ++ get_mol_string_name record ++ r
               ∧ blank l ∧ blank r
               ∧ (∀ c, head (get_mol_string_name record) = Some c → Py.is_space c = false)
               ∧ (∀ c, last (get_mol_string_name record) = Some c → Py.is_space c = false))
  ∧ ((add_hits w growing f data st).1 = Ok () →
     ∃ hits,
       db (add_hits w growing f data st).2 = db st ++ hits
       ∧ Forall2 (λ record hit,
           hit_name hit = take 254 (get_mol_string_name record)
           ∧ length (hit_name hit) ≤ 254
           ∧ (254 < length (get_mol_string_name record) → length (hit_name hit) = 254)
           ∧ hit_file_string hit = record)
         (mol_strings data) hits).
Proof.
  split.
  - intros record. split; [apply get_mol_string_name_eq|].
    rewrite get_mol_string_name_eq. apply strip_spec.
  - intros (hits & Hdb & Hrows)%add_hits_rows.
    exists hits. split; [exact Hdb|].
    eapply Forall2_impl; [exact Hrows|].
    intros record hit Hm. rewrite get_mol_string_name_eq. apply (make_hit_name growing). exact Hm.
Qed.

Lemma hit_name_truncated_witness :
  get_mol_string_name padded_record = "AB"
  ∧ ∃ hits,
      db (add_hits (sample_world (λ _, []) 0 0) (sample_growing ["4agn"%string])
            "batch1.sdf" padded_record pending).2 = db pending ++ hits
      ∧ Forall2 (λ record hit,
          hit_name hit = take 254 (get_mol_string_name record)
          ∧ length (hit_name hit) ≤ 254
          ∧ (254 < length (get_mol_string_name record) → length (hit_name hit) = 254)
          ∧ hit_file_string hit = record)
        (mol_strings padded_record) hits.
Proof.
  destruct (hit_name_truncated (sample_world (λ _, []) 0 0) (sample_growing ["4agn"%string])
              "batch1.sdf"%string padded_record pending) as [Hname Hrows].
  split; [vm_compute; reflexivity|].
  apply Hrows. vm_compute. reflexivity.
Defined.

(** C9, the claim as worded fails: the first line is [AB] followed by 253
    blanks, 255 characters in all; the stored name is [AB], not the first 254
    characters of the line. *)
Lemma hit_name_is_not_line_prefix : ¬ first_254_of_first_line.
Proof.
  intros H.
  pose (g := sample_growing ["4agn"%string]).
  destruct (make_hit g padded_record) as [hit|] eqn:Hm;
    [|vm_compute in Hm; discriminate].
  specialize (H g padded_record hit Hm).
  assert (254 < length (first_line padded_record)) as Hlong by (vm_compute; lia).
  specialize (H Hlong).
  vm_compute in Hm. injection Hm as <-.
  vm_compute in H. discriminate.
Qed.

(** * C10 *)

Lemma contains_strip sub s : Py.contains sub s = false → Py.contains sub (Py.strip s) = false.
Proof.
  intros H. destruct (strip_spec s) as (l & r & Hs & _).
  rewrite Hs in H. eapply contains_false_mono. exact H.
Qed.

Lemma contains_fragment sub sep s m :
  sep ≠ [] → m ∈ Py.split sep s → Py.contains sub s = false → Py.contains sub m = false.
Proof.
  intros Hsep (l & r & ->)%split_infix H; [|exact Hsep].
  eapply contains_false_mono. exact H.
Qed.

(** C10 (as amended): extraction deletes every [$$$$] from a piece before it
    looks at it.  The pieces are what the [> <] markers cut the record into,
    the text before the first marker included, so the piece that gives the
    value need not follow a marker line of the key.  The value returned comes
    from the first piece whose key is the property: cleaned of [$$$$], the
    piece falls into parts at each [>] that ends a line, the first part,
    stripped, is the key, and the value is the second part, stripped: the
    text from the end of the key's line to the next [>] at the end of a line,
    or to the end of the piece.  Neither the key nor the value returned holds
    [$$$$]. *)
Theorem prop_value_cleaned prop record v :
  get_mol_string_prop prop record None = Ok (Some v) →
  ∃ before element after key value rest,
    Py.split marker record = before ++ element :: after
    ∧ Forall (λ el, head (property_pair el) ≠ Some prop) before
    ∧ Py.replace "$$$$" [] element = Py.join key_end (key :: value :: rest)
    ∧ Py.contains key_end key = false
    ∧ Py.contains key_end value = false
    ∧ Py.strip key = prop
    ∧ v = PyStr (Py.strip value)
    ∧ Py.contains "$$$$" (Py.strip value) = false
    ∧ Py.contains "$$$$" prop = false.
Proof.
  assert (key_end ≠ []) as Hne by discriminate.
  intros (before & element & after & key & value & rest & Hs & Hb & Hp & Hk & Hv)%prop_scan_found.
  exists before, element, after, key, value, rest.
  pose proof (join_split key_end (Py.replace "$$$$" [] element) Hne) as Hjoin.
  pose proof (split_free key_end (Py.replace "$$$$" [] element) Hne) as Hfree.
  pose proof (delete_dollars_free element) as Hclean.
  rewrite Hp in Hjoin, Hfree.
  apply Forall_cons in Hfree as [Hfk Hfree]. apply Forall_cons in Hfree as [Hfv _].
  assert (key ∈ Py.split key_end (Py.replace "$$$$" [] element)) as Hkin
    by (rewrite Hp; apply elem_of_cons; left; reflexivity).
  assert (value ∈ Py.split key_end (Py.replace "$$$$" [] element)) as Hvin
    by (rewrite Hp; apply elem_of_cons; right; apply elem_of_cons; left; reflexivity).
  split; [exact Hs|]. split; [exact Hb|]. split; [symmetry; exact Hjoin|].
  split; [exact Hfk|]. split; [exact Hfv|]. split; [exact Hk|]. split; [exact Hv|].
  split.
  - apply contains_strip. eapply contains_fragment; eassumption.
  - rewrite <- Hk. apply contains_strip. eapply contains_fragment; eassumption.
Qed.

Lemma prop_value_cleaned_witness :
  ∃ before element after key value rest,
    Py.split marker dollars_in_value = before ++ element :: after
    ∧ Forall (λ el, head (property_pair el) ≠ Some ("K" : str)) before
    ∧ Py.replace "$$$$" [] element = Py.join key_end (key :: value :: rest)
    ∧ Py.contains key_end key = false
    ∧ Py.contains key_end value = false
    ∧ Py.strip key = "K"
    ∧ PyStr "ab" = PyStr (Py.strip value)
    ∧ Py.contains "$$$$" (Py.strip value) = false
    ∧ Py.contains "$$$$" ("K" : str) = false.
Proof.
  apply (prop_value_cleaned "K" dollars_in_value (PyStr "ab")).
  vm_compute. reflexivity.
Defined.

(** C10, the claim as worded fails: the value of [K] runs over two lines and
    the first ends in [>]; the text between the marker line and the end of
    the record, cleaned and stripped, is both lines, and what is returned is
    the first line without its [>]. *)
Lemma prop_value_stops_at_key_end : ¬ value_is_text_after_marker_line.
Proof.
  intros H.
  specialize (H "K" two_line_value "a").
  assert (get_mol_string_prop "K" two_line_value None = Ok (Some (PyStr "a"))) as Hv
    by (vm_compute; reflexivity).
  specialize (H Hv). vm_compute in H. discriminate.
Qed.

(** * More on the record splitter *)

Lemma filter_all {A} (P : A → Prop) `{!∀ x, Decision (P x)} (l : list A) :
  Forall P l → filter P l = l.
Proof.
  induction 1 as [|x l Hx _ IH]; [reflexivity|].
  rewrite filter_cons_True by exact Hx. rewrite IH. reflexivity.
Qed.

(** A fragment without the delimiter, followed by the delimiter, is cut
    right there. *)
Lemma cut_delimiter_fragment m rest :
  Py.contains delimiter m = false →
  Py.cut delimiter (m ++ delimiter ++ rest) = Some (m, rest).
Proof.
  induction m as [|c m IH]; intros Hfree.
  - change ([] ++ delimiter ++ rest) with (delimiter ++ rest).
    rewrite cut_unfold, after_prefix_app. reflexivity.
  - rewrite contains_unfold in Hfree.
    destruct (Py.after_prefix delimiter (c :: m)) eqn:E; [discriminate|].
    rewrite cut_unfold.
    assert (Py.after_prefix delimiter ((c :: m) ++ delimiter ++ rest) = None) as ->.
    { destruct (decide (length delimiter ≤ length (c :: m))) as [Hl|Hl].
      - apply after_prefix_None_app; assumption.
      - destruct (Py.after_prefix delimiter ((c :: m) ++ delimiter ++ rest)) eqn:E2;
          [|reflexivity].
        apply after_prefix_Some in E2. exfalso.
        destruct m as [|c2 [|c3 [|c4 [|c5 m]]]]; simpl in Hl; try lia; discriminate E2. }
    change ((c :: m) ++ delimiter ++ rest) with (c :: (m ++ delimiter ++ rest)).
    cbv beta iota. rewrite (IH Hfree). reflexivity.
Qed.

Lemma split_concat_fragments ms :
  Forall (λ m, Py.contains delimiter m = false) ms →
  Py.split delimiter (concat ((λ m, m ++ delimiter) <$> ms)) = ms ++ [[]].
Proof.
  assert (delimiter ≠ []) as Hne by discriminate.
  induction 1 as [|m ms Hm _ IH]; [reflexivity|].
  rewrite fmap_cons. cbn [concat]. rewrite <- app_assoc.
  rewrite split_unfold, (cut_delimiter_fragment m _ Hm) by exact Hne.
  rewrite IH. reflexivity.
Qed.

Lemma kept_fragments data :
  Forall (λ m, Py.contains delimiter m = false ∧ ¬ blank m)
    (filter (λ m, ¬ blank m) (Py.split delimiter data)).
Proof.
  apply Forall_forall. intros m [Hm Hin]%list_elem_of_filter. split; [|exact Hm].
  pose proof (split_free delimiter data ltac:(discriminate)) as Hfree.
  rewrite Forall_forall in Hfree. apply Hfree. exact Hin.
Qed.

Lemma mol_strings_concat ms :
  Forall (λ m, Py.contains delimiter m = false ∧ ¬ blank m) ms →
  mol_strings (concat ((λ m, m ++ delimiter) <$> ms)) = (λ m, m ++ delimiter) <$> ms.
Proof.
  intros Hms. rewrite mol_strings_eq, split_concat_fragments.
  - rewrite filter_app, (filter_cons_False _ []), filter_nil, app_nil_r.
    + rewrite filter_all; [reflexivity|]. eapply Forall_impl; [exact Hms|]. intros m [_ H]. exact H.
    + intros H. apply H. constructor.
  - eapply Forall_impl; [exact Hms|]. intros m [H _]. exact H.
Qed.

(** X1: every record the splitter yields can be split again on its own and
    gives itself back, as the only record. *)
Theorem mol_strings_reparse data r :
  r ∈ mol_strings data → mol_strings r = [r].
Proof.
  rewrite mol_strings_eq. intros (m & -> & Hm)%list_elem_of_fmap.
  pose proof (kept_fragments data) as Hkept. rewrite Forall_forall in Hkept.
  specialize (Hkept m Hm).
  pose proof (mol_strings_concat [m]) as H. simpl in H. rewrite app_nil_r in H.
  apply H. constructor; [exact Hkept | constructor].
Qed.

Lemma mol_strings_reparse_witness : mol_strings hit_a = [hit_a].
Proof.
  apply (mol_strings_reparse (hit_a ++ hit_b)).
  apply (bool_decide_unpack _). vm_compute. exact I.
Defined.

Lemma mol_strings_again data :
  mol_strings (concat (mol_strings data)) = mol_strings data.
Proof.
  rewrite (mol_strings_eq data). apply mol_strings_concat. apply kept_fragments.
Qed.

(** X2: splitting is idempotent on its own output: the records of a text,
    written one after the other, split into the same records, so that blank
    fragments and a missing last delimiter are normalised once and for all. *)
Theorem mol_strings_concat_roundtrip data :
  mol_strings (concat (mol_strings data)) = mol_strings data
  ∧ concat (mol_strings (concat (mol_strings data))) = concat (mol_strings data).
Proof. rewrite mol_strings_again. split; reflexivity. Qed.

(** * More on the names *)

Lemma first_line_no_nl s : Py.nl ∉ first_line s.
Proof.
  induction s as [|c s IH]; simpl; [apply not_elem_of_nil|].
  destruct (decide (c = Py.nl)); [apply not_elem_of_nil|].
  apply not_elem_of_cons. split; [congruence | exact IH].
Qed.

Lemma first_line_length s : length (first_line s) ≤ length s.
Proof.
  induction s as [|c s IH]; simpl; [lia|].
  destruct (decide (c = Py.nl)); simpl; lia.
Qed.

Lemma first_line_app line rest :
  Py.nl ∉ line → first_line (line ++ Py.nl :: rest) = line.
Proof.
  induction line as [|c line IH]; simpl.
  - intros _. try rewrite decide_True by reflexivity. reflexivity.
  - intros [Hc Hline]%not_elem_of_cons.
    rewrite decide_False by congruence. rewrite IH by exact Hline. reflexivity.
Qed.

(** X3: the extracted name holds no line feed, neither starts nor ends with
    whitespace, is no longer than the record, and is empty exactly when the
    first line of the record is blank. *)
Theorem name_shape record :
  (Py.nl ∉ get_mol_string_name record)
  ∧ (∀ c, head (get_mol_string_name record) = Some c → Py.is_space c = false)
  ∧ (∀ c, last (get_mol_string_name record) = Some c → Py.is_space c = false)
  ∧ length (get_mol_string_name record) ≤ length record
  ∧ (get_mol_string_name record = [] ↔ blank (first_line record)).
Proof.
  rewrite get_mol_string_name_eq.
  destruct (strip_spec (first_line record)) as (l & r & Hs & _ & _ & Hh & Hl).
  split.
  { intros Hin. apply (first_line_no_nl record). rewrite Hs.
    apply elem_of_app. right. apply elem_of_app. left. exact Hin. }
  split; [exact Hh|]. split; [exact Hl|]. split.
  - pose proof (strip_length (first_line record)). pose proof (first_line_length record). lia.
  - apply strip_blank.
Qed.

Lemma name_shape_witness :
  (get_mol_string_name (text [" "; "HIT"]%string) = [])
  ↔ blank (first_line (text [" "; "HIT"]%string)).
Proof. apply (name_shape (text [" "; "HIT"]%string)). Defined.

(** X4: the name depends on the first line alone: whatever follows the first
    line feed, the name is that line without the whitespace around it. *)
Theorem name_of_first_line line rest :
  Py.nl ∉ line → get_mol_string_name (line ++ Py.nl :: rest) = Py.strip line.
Proof.
  intros Hline. rewrite get_mol_string_name_eq, first_line_app by exact Hline. reflexivity.
Qed.

Lemma name_of_first_line_witness :
  get_mol_string_name ((" HIT_A " : str) ++ Py.nl :: text ["> <Score>"; "1"]%string)
  = Py.strip " HIT_A ".
Proof.
  apply name_of_first_line. apply (bool_decide_unpack _). vm_compute. exact I.
Defined.

(** * More on the rows *)

Lemma file_hits_fields w growing mols hits :
  file_hits w growing mols = Ok hits →
  hit_file_string <$> hits = mols
  ∧ Forall (λ hit, hit_file_type hit = "sdf"
                   ∧ hit_growing hit = growing_id growing
                   ∧ db_accepts w hit = true) hits.
Proof.
  revert hits. induction mols as [|m rest IH]; intros hits; simpl.
  - intros [= <-]. split; [reflexivity | constructor].
  - destruct (make_hit growing m) as [hit|] eqn:Hm; [|discriminate].
    cbn [mbind result_bind]. destruct (db_accepts w hit) eqn:Hacc; [|discriminate].
    destruct (file_hits w growing rest) as [more|]; [|discriminate].
    cbn [mbind result_bind]. intros [= <-].
    destruct (IH more eq_refl) as [Hstr Hall].
    apply make_hit_fields in Hm as (_ & Hfile & Htype & Hid & _).
    split; [rewrite fmap_cons, Hfile, Hstr; reflexivity|].
    constructor; [|exact Hall]. auto.
Qed.

(** X5: the rows [add_hits] stores carry the records of the file verbatim and
    in order, delimiter included, with the type [sdf] and the id of the
    growing, and each was accepted by the store; written one after the other,
    their payloads split into the same records again. *)
Theorem stored_payload_verbatim w growing f data st :
  (add_hits w growing f data st).1 = Ok () →
  ∃ hits,
    db (add_hits w growing f data st).2 = db st ++ hits
    ∧ hit_file_string <$> hits = mol_strings data
    ∧ Forall (λ hit, hit_file_type hit = "sdf"
                     ∧ hit_growing hit = growing_id growing
                     ∧ db_accepts w hit = true) hits
    ∧ mol_strings (concat (hit_file_string <$> hits)) = hit_file_string <$> hits.
Proof.
  destruct (add_hits w growing f data st) as [r st'] eqn:Ha. simpl. intros ->.
  apply add_hits_spec in Ha as (_ & _ & _ & Hdb).
  destruct (file_hits w growing (mol_strings data)) as [hits|] eqn:Hh; [|discriminate].
  apply file_hits_fields in Hh as [Hstr Hall].
  exists hits. split; [apply Hdb|]. split; [exact Hstr|]. split; [exact Hall|].
  rewrite Hstr. apply mol_strings_again.
Qed.

Lemma stored_payload_verbatim_witness :
  ∃ hits,
    db (add_hits (sample_world (λ _, []) 0 0) (sample_growing ["4agn"%string])
          "batch1.sdf" (hit_a ++ hit_b) pending).2 = db pending ++ hits
    ∧ hit_file_string <$> hits = mol_strings (hit_a ++ hit_b)
    ∧ Forall (λ hit, hit_file_type hit = "sdf"
                     ∧ hit_growing hit = growing_id (sample_growing ["4agn"%string])
                     ∧ db_accepts (sample_world (λ _, []) 0 0) hit = true) hits
    ∧ mol_strings (concat (hit_file_string <$> hits)) = hit_file_string <$> hits.
Proof.
  apply (stored_payload_verbatim (sample_world (λ _, []) 0 0)
           (sample_growing ["4agn"%string]) "batch1.sdf"%string (hit_a ++ hit_b) pending).
  vm_compute. reflexivity.
Defined.

(** * More on the property extractor *)

(** X6: a caster only ever sees the value that extraction without a caster
    returns.  When the key is absent the result is nothing and the caster is
    not consulted; when extraction raises, the same error is raised; when it
    returns a text, the result is what the caster makes of that text, its
    error included. *)
Theorem caster_sees_extracted_text prop record cast :
  (get_mol_string_prop prop record None = Ok None →
   get_mol_string_prop prop record (Some cast) = Ok None)
  ∧ (∀ e, get_mol_string_prop prop record None = Raise e →
          get_mol_string_prop prop record (Some cast) = Raise e)
  ∧ (∀ v, get_mol_string_prop prop record None = Ok (Some v) →
          ∃ value, v = PyStr value
                   ∧ get_mol_string_prop prop record (Some cast)
                     = (x ← cast value; Ok (Some x))).
Proof.
  rewrite get_mol_string_prop_cast.
  split; [intros ->; reflexivity|]. split; [intros e ->; reflexivity|].
  intros v Hv. destruct (prop_scan_text _ _ _ Hv) as [value ->].
  exists value. split; [reflexivity|].
  unfold get_mol_string_prop in Hv. unfold get_mol_string_prop. rewrite Hv. reflexivity.
Qed.

Lemma caster_sees_extracted_text_witness :
  ∃ value, PyStr "12.5" = PyStr value
           ∧ get_mol_string_prop "Score" hit_a (Some float) = (x ← float value; Ok (Some x)).
Proof.
  destruct (caster_sees_extracted_text "Score" hit_a float) as (_ & _ & Hvalue).
  apply Hvalue. vm_compute. reflexivity.
Defined.

Lemma record_keys_clean record key :
  key ∈ record_keys record → Py.contains "$$$$" key = false.
Proof.
  unfold record_keys. intros (element & _ & Hhead)%list_elem_of_omap.
  unfold property_pair in Hhead.
  destruct (Py.split key_end (Py.replace "$$$$" [] element)) as [|k pieces] eqn:Hs;
    [discriminate|].
  injection Hhead as <-.
  apply contains_strip. eapply (contains_fragment _ key_end); [discriminate | |].
  - rewrite Hs. apply elem_of_cons. left. reflexivity.
  - apply delete_dollars_free.
Qed.

(** X7: a key that holds [$$$$] is never found: whatever the record and the
    caster, extraction returns nothing and raises no error. *)
Theorem dollar_key_never_found prop record cast_to :
  Py.contains "$$$$" prop = true → get_mol_string_prop prop record cast_to = Ok None.
Proof.
  intros Hprop. apply get_mol_string_prop_absent.
  intros Hin%record_keys_clean. congruence.
Qed.

Lemma dollar_key_never_found_witness :
  get_mol_string_prop "A$$$$B" (text ["HIT"; "> <A$$$$B>"; "1"; "$$$$"]%string) (Some float)
  = Ok None.
Proof. apply dollar_key_never_found. vm_compute. reflexivity. Defined.

Lemma prop_scan_no_value prop cast_to before element after :
  Forall (λ el, head (property_pair el) ≠ Some prop) before →
  property_pair element = [prop] →
  prop_scan prop cast_to (before ++ element :: after) = Raise IndexError.
Proof.
  intros Hbefore Helement. induction Hbefore as [|el before Hel _ IH]; simpl.
  - rewrite Helement. rewrite decide_False by (intros H; apply H; reflexivity). reflexivity.
  - destruct (property_pair el) as [|key values] eqn:E.
    + unfold property_pair in E. apply fmap_nil_inv in E. destruct (split_not_nil _ _ E).
    + rewrite decide_True by (intros ->; apply Hel; reflexivity). exact IH.
Qed.

(** X8: when the first block that carries the key has no [>] at the end of
    its key line, so that the block is the key and nothing else, extraction
    raises [IndexError], with or without a caster, whatever the later blocks
    hold. *)
Theorem key_without_value_raises prop record cast_to before element after :
  Py.split marker record = before ++ element :: after →
  Forall (λ el, head (property_pair el) ≠ Some prop) before →
  property_pair element = [prop] →
  get_mol_string_prop prop record cast_to = Raise IndexError.
Proof.
  intros Hsplit Hbefore Helement. unfold get_mol_string_prop. rewrite Hsplit.
  apply prop_scan_no_value; assumption.
Qed.

Lemma key_without_value_raises_witness :
  get_mol_string_prop "Score"
    (text ["HIT"; "> <Score"; "> <Score>"; "1.5"; "$$$$"]%string) (Some float)
  = Raise IndexError.
Proof.
  eapply (key_without_value_raises "Score" _ (Some float)
            [text ["HIT"%string]] (text ["Score"%string])).
  - vm_compute. reflexivity.
  - constructor; [vm_compute; discriminate | constructor].
  - vm_compute. reflexivity.
Defined.

(** * Extraction and rows on plain records *)

(** X9: on a plain record - a header, property blocks and the delimiter, with
    header, keys and values free of [>] and [$] - extraction returns the
    stripped value of the first block whose stripped key is the property, and
    nothing when there is none, provided the property is not the stripped
    header itself; with [float] as the caster it returns what [float] makes of
    that value. *)
Theorem extraction_on_plain_records prop header props :
  plain header → Forall (λ kv, plain kv.1 ∧ plain kv.2) props →
  Py.strip header ≠ prop →
  get_mol_string_prop prop (render_record header props) None
    = Ok (PyStr <$> first_value prop props)
  ∧ get_mol_string_prop prop (render_record header props) (Some float)
    = match first_value prop props with
      | Some value => x ← float value; Ok (Some x)
      | None => Ok None
      end.
Proof.
  intros Hh Hprops Hne. split.
  - apply plain_record_prop; assumption.
  - apply plain_record_float; assumption.
Qed.

Lemma extraction_on_plain_records_witness :
  get_mol_string_prop "Score"
    (render_record (text ["HIT_A"; "  mol"; "M  END"]%string)
       [(("4AGN" : str), ("7.5" : str)); (("Score" : str), (" 12.5 " : str))]) None
    = Ok (Some (PyStr "12.5"))
  ∧ get_mol_string_prop "Score"
      (render_record (text ["HIT_A"; "  mol"; "M  END"]%string)
         [(("4AGN" : str), ("7.5" : str)); (("Score" : str), (" 12.5 " : str))]) (Some float)
    = Ok (Some (PyFloat (FDec false 125 (-1)))).
Proof.
  apply (extraction_on_plain_records "Score" (text ["HIT_A"; "  mol"; "M  END"]%string)
           [(("4AGN" : str), ("7.5" : str)); (("Score" : str), (" 12.5 " : str))]).
  - apply (bool_decide_unpack _). vm_compute. exact I.
  - apply (bool_decide_unpack _). vm_compute. exact I.
  - vm_compute. discriminate.
Defined.

(** X10: the row made of a plain record whose header starts with a name line
    and, stripped, is not the word [Score] itself, for a growing with at most
    one structure: the name is the stripped name line cut to 254 characters,
    the score what [float] makes of the first [Score] value - no score at all
    when the record has no such block, which is no error - and the payload
    the record itself; when [float] rejects the value, its error is the
    outcome. *)
Theorem hit_of_plain_record growing line rest props :
  Py.nl ∉ line → plain (line ++ Py.nl :: rest) →
  Forall (λ kv, plain kv.1 ∧ plain kv.2) props →
  Py.strip (line ++ Py.nl :: rest) ≠ "Score" →
  length (complex_set (ensemble growing)) ≤ 1 →
  make_hit growing (render_record (line ++ Py.nl :: rest) props)
  = (score ← match first_value "Score" props with
             | Some value => x ← float value; Ok (Some x)
             | None => Ok None
             end;
     Ok {| hit_growing := growing_id growing;
           hit_name := take 254 (Py.strip line);
           hit_score := score;
           hit_file_string := render_record (line ++ Py.nl :: rest) props;
           hit_file_type := "sdf";
           hit_ensemble_scores := ∅ |}).
Proof.
  intros Hline Hheader Hprops Hne Hone. unfold make_hit.
  rewrite plain_record_float by assumption.
  rewrite decide_False by lia.
  assert (get_mol_string_name (render_record (line ++ Py.nl :: rest) props)
          = Py.strip line) as ->.
  { rewrite get_mol_string_name_eq. unfold render_record.
    rewrite <- app_assoc. change ((Py.nl :: rest) ++ ?t) with (Py.nl :: (rest ++ t)).
    rewrite first_line_app by exact Hline. reflexivity. }
  destruct (first_value "Score" props) as [value|]; [|reflexivity].
  cbn [mbind result_bind]. destruct (float value); reflexivity.
Qed.

Lemma hit_of_plain_record_witness :
  make_hit (sample_growing ["4agn"%string])
    (render_record (("  HIT_A " : str) ++ Py.nl :: text ["  mol"; "M  END"]%string)
       [(("Score" : str), (" 12.5 " : str))])
  = (score ← match first_value "Score" [(("Score" : str), (" 12.5 " : str))] with
             | Some value => x ← float value; Ok (Some x)
             | None => Ok None
             end;
     Ok {| hit_growing := growing_id (sample_growing ["4agn"%string]);
           hit_name := take 254 (Py.strip "  HIT_A ");
           hit_score := score;
           hit_file_string :=
             render_record (("  HIT_A " : str) ++ Py.nl :: text ["  mol"; "M  END"]%string)
               [(("Score" : str), (" 12.5 " : str))];
           hit_file_type := "sdf";
           hit_ensemble_scores := ∅ |}).
Proof.
  apply (hit_of_plain_record (sample_growing ["4agn"%string]) "  HIT_A "
           (text ["  mol"; "M  END"]%string) [(("Score" : str), (" 12.5 " : str))]).
  - apply (bool_decide_unpack _). vm_compute. exact I.
  - apply (bool_decide_unpack _). vm_compute. exact I.
  - apply (bool_decide_unpack _). vm_compute. exact I.
  - vm_compute. discriminate.
  - simpl. lia.
Defined.

(** * Scans, errors and the end of a run *)

Lemma hit_files_all_seen w growing found st :
  Forall (λ f, f ∈ seen_files st) found.*1 →
  hit_files w growing found st = (Ok (), st).
Proof.
  induction found as [|[f data] found IH]; intros Hseen; [reflexivity|].
  rewrite fmap_cons in Hseen. apply Forall_cons in Hseen as [Hf Hrest].
  cbn [hit_files]. unfold bind at 1, is_seen.
  rewrite bool_decide_eq_true_2 by exact Hf. apply IH, Hrest.
Qed.

(** Without a caster the only error of the extractor is the [IndexError]. *)
Lemma prop_scan_index_error prop elements e :
  prop_scan prop None elements = Raise e → e = IndexError.
Proof.
  induction elements as [|element rest IH]; [discriminate|].
  cbn [prop_scan]. destruct (property_pair element) as [|key values].
  { intros [= <-]. reflexivity. }
  destruct (decide (key ≠ prop)); [exact IH|].
  destruct values as [|value values]; [|discriminate].
  intros [= <-]. reflexivity.
Qed.

(** X11: a scan that finds only files already seen reads none of them: the
    call succeeds and leaves the state as it was but for the scan itself in
    the trace, whatever the files hold by then. *)
Theorem seen_files_are_not_read_again w growing found st :
  Forall (λ f, f ∈ seen_files st) found.*1 →
  process_hits w growing found st = (Ok (), (log (EvGlob found.*1) st).2).
Proof.
  intros Hseen. unfold process_hits, atomic. unfold bind at 1, log at 1.
  rewrite hit_files_all_seen by exact Hseen. reflexivity.
Qed.

Lemma seen_files_are_not_read_again_witness :
  process_hits (two_batches 0) (sample_growing ["4agn"%string])
    [("batch1.sdf"%string, hit_a ++ hit_bad)] after_first_scan
  = (Ok (), (log (EvGlob ["batch1.sdf"%string]) after_first_scan).2).
Proof.
  apply (seen_files_are_not_read_again (two_batches 0) (sample_growing ["4agn"%string])
           [("batch1.sdf"%string, hit_a ++ hit_bad)] after_first_scan).
  apply (bool_decide_unpack _). vm_compute. exact I.
Defined.

(** X12: the errors of the extractor.  Without a caster it raises nothing
    but an [IndexError].  With [float] as the caster it raises either that
    same [IndexError], or the [ValueError] of [float] on the very text the
    extraction without a caster returns, a text that is no float literal. *)
Theorem extraction_errors prop record :
  (∀ e, get_mol_string_prop prop record None = Raise e → e = IndexError)
  ∧ (∀ e, get_mol_string_prop prop record (Some float) = Raise e →
       e = IndexError ∧ get_mol_string_prop prop record None = Raise IndexError
       ∨ ∃ value, e = ValueError value
                  ∧ get_mol_string_prop prop record None = Ok (Some (PyStr value))
                  ∧ Float.parse value = None).
Proof.
  split; [intros e; apply prop_scan_index_error|].
  intros e. rewrite get_mol_string_prop_cast.
  destruct (get_mol_string_prop prop record None) as [[[value|x]|]|e'] eqn:Hplain.
  - unfold float. destruct (Float.parse value) eqn:Hparse; [discriminate|].
    intros [= <-]. right. exists value. auto.
  - discriminate.
  - discriminate.
  - intros [= <-]. left.
    rewrite (prop_scan_index_error _ _ _ Hplain). split; reflexivity.
Qed.

Lemma extraction_errors_witness :
  (ValueError "n/a" = IndexError
   ∧ get_mol_string_prop "Score" hit_bad None = Raise IndexError)
  ∨ ∃ value, ValueError "n/a" = ValueError value
             ∧ get_mol_string_prop "Score" hit_bad None = Ok (Some (PyStr value))
             ∧ Float.parse value = None.
Proof.
  destruct (extraction_errors "Score" hit_bad) as [_ Hfloat].
  apply Hfloat. vm_compute. reflexivity.
Defined.

(** X13: when the ingestion of a scan raises during a run - the [k]-th scan,
    the scans before it having met no error - the task ends with that error
    and the status [FAILURE]; the rows the earlier scans of the run committed
    stay in the table, after those that were there before, and the failing
    scan leaves none; the exit code of the process is never read. *)
Theorem ingestion_error_ends_run w growing st k hits e :
  k ≤ S (polls_alive w) →
  batches w growing (fresh ∅ (found_before w k)) = Ok hits →
  batches w growing
    (fresh (list_to_set (fresh ∅ (found_before w k)).*1) (listing w k)) = Raise e →
  let run := grow_task w growing st in
  run.1 = Raise e
  ∧ status run.2 = FAILURE
  ∧ db run.2 = db st ++ hits
  ∧ ∃ tr, trace run.2
          = trace st ++ EvPopen (grow_args w growing) :: tr ++ [EvSaveStatus FAILURE]
          ∧ Forall (λ ev, ∀ rc, ev ≠ EvReturncode rc) tr.
Proof.
  intros Hk Hok Hbad run.
  destruct (grow_task_spec w growing st) as (Hr & _ & Hdb & Hstatus & Htrace).
  destruct (grow_raise_at w growing st k hits e Hk Hok Hbad)
    as (Hraise & Hrows & tr & Htr & Hnone).
  rewrite Hraise in Hr, Hstatus, Htrace. simpl in Hstatus, Htrace. subst run.
  split; [exact Hr|]. split; [exact Hstatus|].
  split; [rewrite Hdb; exact Hrows|].
  exists tr. split; [|exact Hnone].
  rewrite Htrace, Htr. simpl. rewrite <- app_assoc. reflexivity.
Qed.

Lemma ingestion_error_ends_run_witness :
  let run := grow_task (bad_batch 0) (sample_growing ["4agn"%string]) pending in
  run.1 = Raise (ValueError "n/a")
  ∧ status run.2 = FAILURE
  ∧ db run.2 = db pending ++ first_scan_rows
  ∧ ∃ tr, trace run.2
          = trace pending
            ++ EvPopen (grow_args (bad_batch 0) (sample_growing ["4agn"%string]))
               :: tr ++ [EvSaveStatus FAILURE]
          ∧ Forall (λ ev, ∀ rc, ev ≠ EvReturncode rc) tr.
Proof.
  apply (ingestion_error_ends_run (bad_batch 0) (sample_growing ["4agn"%string])
           pending 1 first_scan_rows (ValueError "n/a")).
  - simpl. lia.
  - vm_compute. reflexivity.
  - vm_compute. reflexivity.
Defined.

(** * The clipper task *)

(** X14: the clipper task succeeds exactly when the clipper exits with code
    zero; then the core holds the clipped text under the ligand's file type.
    With any other code, negative ones included, it raises the error of the
    process with that code and the full command line, saves [FAILURE], and
    leaves the core's file as it was.  Anchor and linker are never touched. *)
Theorem clip_ligand_outcome cw core :
  let run := clip_ligand cw core in
  (is_ok run.1 = true ↔ clipper_returncode cw = 0%Z)
  ∧ core_status run.2 = (if is_ok run.1 then SUCCESS else FAILURE)
  ∧ match run.1 with
    | Ok _ =>
        core_file_string run.2 = Some (clipped_text cw)
        ∧ core_file_type run.2 = Some (ligand_file_type core)
    | Raise e =>
        e = CalledProcessError (clipper_returncode cw) (clip_args cw core) None None
        ∧ core_file_string run.2 = core_file_string core
        ∧ core_file_type run.2 = core_file_type core
    end
  ∧ anchor_text run.2 = anchor_text core
  ∧ linker_text run.2 = linker_text core
  ∧ ligand_file_type run.2 = ligand_file_type core.
Proof.
  unfold clip_ligand, clip, check_call.
  destruct (decide (clipper_returncode cw = 0%Z)) as [Hrc|Hrc]; simpl.
  - repeat split; auto.
  - repeat split; auto; discriminate.
Qed.

(** * Worked examples *)

Example split_commas :
  Py.split "," "a,b,,c," = [("a" : str); ("b" : str); []; ("c" : str); []].
Proof. reflexivity. Qed.

Example replace_dollars : Py.replace "$$$$" [] "ab$$$$$$cd$$$$" = "ab$$cd".
Proof. reflexivity. Qed.

Example strip_spaces : Py.strip "  a b  " = "a b".
Proof. reflexivity. Qed.

Example upper_name : Py.upper "4agn_x" = "4AGN_X".
Proof. reflexivity. Qed.

Example float_literals :
  Float.parse "12.5" = Some (FDec false 125 (-1))
  ∧ Float.parse " -1_0.5e+3 " = Some (FDec true 105 2)
  ∧ Float.parse "Infinity" = Some (FInf false)
  ∧ Float.parse "-nan" = Some FNan
  ∧ Float.parse "5." = Some (FDec false 5 0)
  ∧ Float.parse ".5" = Some (FDec false 5 (-1))
  ∧ Float.parse "n/a" = None
  ∧ Float.parse [] = None
  ∧ Float.parse "." = None
  ∧ Float.parse "1_" = None
  ∧ Float.parse "1e" = None.
Proof. vm_compute. repeat split; reflexivity. Qed.

Example two_records : mol_strings (hit_a ++ hit_b) = [hit_a; hit_b].
Proof. vm_compute. reflexivity. Qed.

Example key_without_value :
  get_mol_string_prop "Score" (text ["HIT"; "> <Score"; "$$$$"]) None = Raise IndexError.
Proof. vm_compute. reflexivity. Qed.

(** The process exits with code 0 after two result files: three rows, SUCCESS. *)
Example end_to_end :
  let run := grow_task (two_batches 0) (sample_growing ["4agn"%string]) pending in
  run.1 = Ok ()
  ∧ hit_name <$> db run.2 = [("HIT_A" : str); ("HIT_B" : str); ("HIT_C" : str)]
  ∧ hit_score <$> db run.2
    = [Some (PyFloat (FDec false 125 (-1))); Some (PyFloat (FDec false 81 (-1)));
       Some (PyFloat (FDec false 50 (-1)))]
  ∧ ingested (trace run.2) = ["batch1.sdf"; "batch2.sdf"]%string
  ∧ status run.2 = SUCCESS.
Proof. vm_compute. repeat split; reflexivity. Qed.

(** The same with exit code 1: the rows are committed, the run fails. *)
Example exit_code_one :
  let w := two_batches 1 in
  let run := grow_task w (sample_growing ["4agn"%string]) pending in
  run.1 = Raise (CalledProcessError 1 (grow_args w (sample_growing ["4agn"%string]))
                   None None)
  ∧ hit_name <$> db run.2 = [("HIT_A" : str); ("HIT_B" : str); ("HIT_C" : str)]
  ∧ status run.2 = FAILURE.
Proof. vm_compute. repeat split; reflexivity. Qed.

(** The text before the first marker is read as a piece like the others: a
    header that ends its first line in [>] gives a key and a value. *)
Example header_read_as_piece :
  get_mol_string_prop "K" (text ["K>"; "foo"; "> <K>"; "bar"; empty_line; "$$$$"]) None
    = Ok (Some (PyStr "foo"))
  ∧ get_mol_string_prop "Score" header_is_key (Some float) = Raise IndexError
  ∧ get_mol_string_prop "M1" header_as_block (Some float)
    = Ok (Some (PyFloat (FDec false 7 0))).
Proof. vm_compute. repeat split; reflexivity. Qed.

(** The second scan of the run meets a bad record: the row of the first scan
    stays, the task fails with the cast error. *)
Example failing_second_scan :
  let run := grow_task (bad_batch 0) (sample_growing ["4agn"%string]) pending in
  run.1 = Raise (ValueError "n/a")
  ∧ hit_name <$> db run.2 = [("HIT_A" : str)]
  ∧ status run.2 = FAILURE.
Proof. vm_compute. repeat split; reflexivity. Qed.
